(** * PRoot path engine: [src/path/path.c]

    A shallow embedding of the lexical half of PRoot's path translation
    engine (lexer, comparator, joiner, translator anchor, detranslator,
    [foreach_fd]) together with the properties its specification states.

    C strings live in byte buffers.  A buffer is the list of the bytes
    found from its base address on; a byte past the end of the list reads
    as NUL, so every buffer holds a NUL-terminated string, and whatever
    follows the first NUL is stale memory that the string functions never
    look at.  Lengths stay below [PATH_MAX], far from the limits of [int]
    and [size_t], and are natural numbers. *)

From Stdlib Require Import Ascii String DecimalString ZArith Lia Bool Arith List.
Import ListNotations.

Local Open Scope nat_scope.

(** ** Bytes and buffers *)

Definition NUL : ascii := "000"%char.
Definition SLASH : ascii := "/"%char.

Definition buf := list ascii.

(** A C string literal. *)
Definition lit (s : string) : buf := list_ascii_of_string s.

(** [b[i]] *)
Definition get (b : buf) (i : nat) : ascii := nth i b NUL.

(** [b[i] = c]; memory never read before is NUL. *)
Fixpoint set (b : buf) (i : nat) (c : ascii) : buf :=
  match i, b with
  | 0, [] => [c]
  | 0, _ :: b' => c :: b'
  | S i', [] => NUL :: set [] i' c
  | S i', x :: b' => x :: set b' i' c
  end.

(** Write the bytes [l] at [b + i], lowest address first. *)
Fixpoint store (b : buf) (i : nat) (l : list ascii) : buf :=
  match l with
  | [] => b
  | c :: l' => store (set b i c) (S i) l'
  end.

(** strlen(3) *)
Fixpoint strlen (b : buf) : nat :=
  match b with
  | [] => 0
  | c :: b' => if Ascii.eqb c NUL then 0 else S (strlen b')
  end.

(** The string a buffer holds: its bytes before the first NUL. *)
Definition str (b : buf) : list ascii := firstn (strlen b) b.

(** The pointer [b + i]. *)
Definition at_off (b : buf) (i : nat) : buf := skipn i b.

(** strncmp(3): difference of the first bytes that differ among the first
    [n], 0 if there are none; the comparison stops at a NUL. *)
Fixpoint strncmp (s1 s2 : buf) (n : nat) : Z :=
  match n with
  | 0 => 0%Z
  | S n' =>
      let c1 := get s1 0 in
      let c2 := get s2 0 in
      if negb (Ascii.eqb c1 c2)
      then (Z.of_nat (nat_of_ascii c1) - Z.of_nat (nat_of_ascii c2))%Z
      else if Ascii.eqb c1 NUL then 0%Z
      else strncmp (tl s1) (tl s2) n'
  end.

(** ** assert(3)

    A failed assertion aborts the process: the call has no result. *)

Inductive run (A : Type) : Type :=
| Ret (a : A)
| Abort.
Arguments Ret {A} a.
Arguments Abort {A}.

Definition bind {A B} (m : run A) (k : A -> run B) : run B :=
  match m with
  | Ret a => k a
  | Abort => Abort
  end.

Definition assert (c : bool) : run unit := if c then Ret tt else Abort.

Notation "x <- m ;; k" := (bind m (fun x => k))
  (at level 61, m at next level, right associativity).
Notation "'assert!' c ;; k" := (bind (assert c) (fun _ => k))
  (at level 61, c at next level, right associativity).

(** ** errno values (Linux, <errno.h>) and <fcntl.h> *)

Definition EPERM : Z := 1.
Definition ENOENT : Z := 2.
Definition ENOTDIR : Z := 20.
Definition ENAMETOOLONG : Z := 36.
Definition AT_FDCWD : Z := -100.

(** ** The comparator *)

Inductive Comparison : Type :=
| PATHS_ARE_EQUAL
| PATH1_IS_PREFIX
| PATH2_IS_PREFIX
| PATHS_ARE_NOT_COMPARABLE.

Definition Comparison_eqb (c1 c2 : Comparison) : bool :=
  match c1, c2 with
  | PATHS_ARE_EQUAL, PATHS_ARE_EQUAL
  | PATH1_IS_PREFIX, PATH1_IS_PREFIX
  | PATH2_IS_PREFIX, PATH2_IS_PREFIX
  | PATHS_ARE_NOT_COMPARABLE, PATHS_ARE_NOT_COMPARABLE => true
  | _, _ => false
  end.

(** The assertions under DEBUG_OPATH are not compiled in. *)
Definition compare_paths2 (path1 : buf) (length1 : nat)
                          (path2 : buf) (length2 : nat) : run Comparison :=
  assert! (0 <? length1) ;;
  assert! (0 <? length2) ;;
  if (length1 =? 0) || (length2 =? 0) then Ret PATHS_ARE_NOT_COMPARABLE else
  (* Remove potential trailing '/' for the comparison. *)
  let length1 :=
    if Ascii.eqb (get path1 (length1 - 1)) SLASH then length1 - 1 else length1 in
  let length2 :=
    if Ascii.eqb (get path2 (length2 - 1)) SLASH then length2 - 1 else length2 in
  let '(length_min, sentinel) :=
    if length1 <? length2
    then (length1, get path2 length1)
    else (length2, get path1 length2) in
  (* Optimize obvious cases. *)
  if negb (Ascii.eqb sentinel SLASH) && negb (Ascii.eqb sentinel NUL)
  then Ret PATHS_ARE_NOT_COMPARABLE else
  let is_prefix := (strncmp path1 path2 length_min =? 0)%Z in
  if negb is_prefix then Ret PATHS_ARE_NOT_COMPARABLE else
  if length1 =? length2 then Ret PATHS_ARE_EQUAL
  else if length1 <? length2 then Ret PATH1_IS_PREFIX
  else if length2 <? length1 then Ret PATH2_IS_PREFIX
  else assert! false ;; Ret PATHS_ARE_NOT_COMPARABLE.

Definition compare_paths (path1 path2 : buf) : run Comparison :=
  compare_paths2 path1 (strlen path1) path2 (strlen path2).

(** ** The lexer *)

Inductive Finality : Type :=
| NOT_FINAL
| FINAL_NORMAL
| FINAL_SLASH.

Definition is_slash (c : ascii) : bool := Ascii.eqb c SLASH.
Definition not_slash (c : ascii) : bool := negb (Ascii.eqb c SLASH).

(** [while ( **cursor != '\0' && cond( **cursor)) ( *cursor)++;] where [rest]
    is the memory from the cursor on.  The byte past the end of [rest] is
    NUL, which stops the loop. *)
Fixpoint advance (cond : ascii -> bool) (rest : buf) (cursor : nat) : nat :=
  match rest with
  | [] => cursor
  | c :: rest' =>
      if negb (Ascii.eqb c NUL) && cond c
      then advance cond rest' (S cursor)
      else cursor
  end.

(** The bytes strncpy(3) writes: the first [n] bytes of the string at
    [src], padded with NUL when the string is shorter. *)
Fixpoint strncpy_bytes (src : buf) (n : nat) : list ascii :=
  match n with
  | 0 => []
  | S n' =>
      let c := get src 0 in
      if Ascii.eqb c NUL then repeat NUL n
      else c :: strncpy_bytes (tl src) n'
  end.

Definition strncpy (dst src : buf) (n : nat) : buf :=
  store dst 0 (strncpy_bytes src n).

(** What a call leaves behind besides its result: the component buffer
    and the cursor, an offset into [path]. *)
Record lexed : Type := mk_lexed {
  lx_result : Z + Finality;      (* inl e: the negative value e *)
  lx_component : buf;
  lx_cursor : nat
}.

Section Limits.

(** <limits.h> *)
Variable NAME_MAX : nat.
Variable PATH_MAX : nat.

(** The two pointers are never NULL here: their assertions hold. *)
Definition next_component (component : buf) (path : buf) (cursor : nat) : lexed :=
  (* Skip leading path separators. *)
  let cursor := advance is_slash (at_off path cursor) cursor in
  (* Find the next component. *)
  let start := cursor in
  let cursor := advance not_slash (at_off path cursor) cursor in
  let length := cursor - start in
  if NAME_MAX <=? length then mk_lexed (inl (- ENAMETOOLONG)%Z) component cursor else
  (* Extract the component. *)
  let component := strncpy component (at_off path start) length in
  let component := set component length NUL in
  (* Check if a [link to a] directory is expected. *)
  let want_dir := Ascii.eqb (get path cursor) SLASH in
  (* Skip trailing path separators. *)
  let cursor := advance is_slash (at_off path cursor) cursor in
  if Ascii.eqb (get path cursor) NUL
  then mk_lexed (inr (if want_dir then FINAL_SLASH else FINAL_NORMAL)) component cursor
  else mk_lexed (inr NOT_FINAL) component cursor.

(** [while (offset > 1 && cond(path[offset])) offset--;] *)
Fixpoint retreat (cond : ascii -> bool) (path : buf) (offset : nat) : nat :=
  match offset with
  | S (S _ as offset') =>
      if cond (get path offset) then retreat cond path offset' else offset
  | _ => offset
  end.

Definition pop_component (path : buf) : run buf :=
  let offset : Z := (Z.of_nat (strlen path) - 1)%Z in
  assert! (0 <=? offset)%Z ;;
  let offset := Z.to_nat offset in
  (* Don't pop over "/", it doesn't mean anything. *)
  if offset =? 0 then
    assert! (Ascii.eqb (get path 0) SLASH && Ascii.eqb (get path 1) NUL) ;;
    Ret path
  else
  (* Skip trailing path separators. *)
  let offset := retreat is_slash path offset in
  (* Search for the previous path separator. *)
  let offset := retreat not_slash path offset in
  (* Cut the end of the string before the last component. *)
  let path := set path offset NUL in
  assert! (Ascii.eqb (get path 0) SLASH) ;;
  Ret path.

(** ** The joiner *)

(** strcat(dst + off, src): the string [src] and its NUL are written
    where the string that starts at [dst + off] ends. *)
Definition strcat_at (dst : buf) (off : nat) (src : buf) : buf :=
  store dst (off + strlen (at_off dst off)) (str src ++ [NUL]).

(** One turn of the [for] loop of [join_paths] on an argument that is not
    NULL: the error returned, or the buffer and the length to go on with. *)
Definition join_paths_turn (result : buf) (length : nat) (path : buf)
  : Z + buf * nat :=
  (* Check if a path separator is needed. *)
  let need_separator : Z :=
    if (0 <? length) && negb (Ascii.eqb (get result (length - 1)) SLASH)
       && negb (Ascii.eqb (get path 0) SLASH) then 1%Z
    else if (0 <? length) && Ascii.eqb (get result (length - 1)) SLASH
            && Ascii.eqb (get path 0) SLASH then (-1)%Z
    else 0%Z in
  let old_length := length in
  let length :=
    Z.to_nat (Z.of_nat length + (Z.of_nat (strlen path) + need_separator)) in
  if PATH_MAX <=? length then inl (- ENAMETOOLONG)%Z else
  let '(result, old_length, path) :=
    if (need_separator =? -1)%Z then (result, old_length, at_off path 1)
    else if (need_separator =? 1)%Z
    then (strcat_at result old_length (lit "/"), S old_length, path)
    else (result, old_length, path) in
  inr (strcat_at result old_length path, length).

(** The [for] loop of [join_paths] over the variadic arguments still to
    come; a NULL argument is [None]. *)
Fixpoint join_paths_loop (paths : list (option buf)) (result : buf) (length : nat)
  : Z * buf :=
  match paths with
  | [] => (0%Z, result)
  | None :: paths' => join_paths_loop paths' result length
  | Some path :: paths' =>
      match join_paths_turn result length path with
      | inl error => (error, result)
      | inr (result, length) => join_paths_loop paths' result length
      end
  end.

(** [join_paths(number_paths, result, ...)], [paths] being the first
    [number_paths] variadic arguments. *)
Definition join_paths (result : buf) (paths : list (option buf)) : Z * buf :=
  join_paths_loop paths (set result 0 NUL) 0.

End Limits.

(** ** More of <string.h> *)

(** strcpy(dst, src) *)
Definition strcpy (dst src : buf) : buf := store dst 0 (str src ++ [NUL]).

(** The [n] bytes found at [b]. *)
Definition load (b : buf) (n : nat) : list ascii := map (get b) (seq 0 n).

(** memmove(dst, src, n): the source is read whole before anything is
    written, so the areas may overlap. *)
Definition memmove (dst src : buf) (n : nat) : buf := store dst 0 (load src n).

(** ** The tracee and the collaborators of this file *)

Record Tracee : Type := mk_Tracee {
  pid : Z;     (* 0 until the first tracee has started *)
  root : buf   (* host path of the guest rootfs *)
}.

Inductive Side : Type := GUEST | HOST.

(** [belongs_to_guestfs]: the translated path isn't from a binding. *)
Definition belongs_to_guestfs (tracee : Tracee) (host_path : buf) : run bool :=
  comparison <- compare_paths (root tracee) host_path ;;
  Ret (Comparison_eqb comparison PATHS_ARE_EQUAL
       || Comparison_eqb comparison PATH1_IS_PREFIX).

(** "%d" *)
Definition decimal (z : Z) : list ascii :=
  list_ascii_of_string (DecimalString.NilZero.string_of_int (Z.to_int z)).

(** S_ISDIR of <sys/stat.h>. *)
Definition S_IFMT : Z := 61440.   (* 0170000 *)
Definition S_IFDIR : Z := 16384.  (* 0040000 *)
Definition S_ISDIR (st_mode : Z) : bool := (Z.land st_mode S_IFMT =? S_IFDIR)%Z.

Section Engine.

Variable PATH_MAX : nat.

(** path/binding.h: the guest-side (for [HOST]) prefix of the binding
    that holds the path, if any; and the substitution of that prefix in
    place, which answers 0 for a symmetric binding, 1 after a
    substitution and something else when no binding applies. *)
Variable get_path_binding : Tracee -> Side -> buf -> option buf.
Variable substitute_binding : Tracee -> Side -> buf -> Z * buf.

(** path/proc.h: the emulation of readlink on a referrer under "/proc",
    called on (tracee, result, referrer); it answers the length of the
    path it wrote in [result], or zero when it emulated nothing. *)
Variable readlink_proc2 : Tracee -> buf -> buf -> nat * buf.

Definition detranslate_path (tracee : Tracee) (path : buf)
                            (t_referrer : option buf) : run (Z * buf) :=
  (* Don't try to detranslate relative paths. *)
  if negb (Ascii.eqb (get path 0) SLASH) then Ret (0%Z, path) else
  (* Is it a symlink?  [inl]: the value returned at once;
     [inr]: (sanity_check, follow_binding). *)
  decision <-
    match t_referrer with
    | Some t_referrer =>
        (* In some cases bindings have to be resolved. *)
        comparison <- compare_paths (lit "/proc") t_referrer ;;
        if Comparison_eqb comparison PATH1_IS_PREFIX then
          (* [proc_path] is a local buffer, fresh at this point. *)
          let proc_path := strcpy [] path in
          let '(new_length, proc_path) :=
            readlink_proc2 tracee proc_path t_referrer in
          if negb (new_length =? 0)
          then Ret (inl ((Z.of_nat new_length + 1)%Z, strcpy path proc_path))
          else
            (* Always resolve bindings for symlinks in "/proc". *)
            Ret (inr (false, true))
        else
          in_guestfs <- belongs_to_guestfs tracee t_referrer ;;
          if negb in_guestfs then
            let binding_referree := get_path_binding tracee HOST path in
            let binding_referrer := get_path_binding tracee HOST t_referrer in
            assert! (match binding_referrer with Some _ => true | None => false end) ;;
            match binding_referree, binding_referrer with
            | Some binding_referree, Some binding_referrer =>
                comparison <- compare_paths binding_referree binding_referrer ;;
                Ret (inr (false, Comparison_eqb comparison PATHS_ARE_EQUAL))
            | _, _ => Ret (inr (false, false))
            end
          else Ret (inr (false, false))
    | None => Ret (inr (true, true))
    end ;;
  match decision with
  | inl returned => Ret returned
  | inr (sanity_check, follow_binding) =>
      (* [inl]: the value returned at once; [inr]: the path, to go on with. *)
      let substituted :=
        if follow_binding then
          let '(status, path) := substitute_binding tracee HOST path in
          if (status =? 0)%Z then inl (0%Z, path)
          else if (status =? 1)%Z then inl ((Z.of_nat (strlen path) + 1)%Z, path)
          else inr path
        else inr path in
      match substituted with
      | inl returned => Ret returned
      | inr path =>
          comparison <- compare_paths (root tracee) path ;;
          match comparison with
          | PATH1_IS_PREFIX =>
              (* Remove the leading part, that is, the "root". *)
              let prefix_length := strlen (root tracee) in
              (* Special case when path to the guest rootfs == "/". *)
              let prefix_length := if prefix_length =? 1 then 0 else prefix_length in
              (* The prefix is never longer than the path: see [prefix_begins]. *)
              let new_length := strlen path - prefix_length in
              let path := memmove path (at_off path prefix_length) new_length in
              let path := set path new_length NUL in
              Ret ((Z.of_nat new_length + 1)%Z, path)
          | PATHS_ARE_EQUAL =>
              (* Special case when path == root. *)
              let new_length := 1 in
              let path := strcpy path (lit "/") in
              Ret ((Z.of_nat new_length + 1)%Z, path)
          | _ =>
              (* Ensure the path is within the new root. *)
              if sanity_check then Ret ((- EPERM)%Z, path) else Ret (0%Z, path)
          end
      end
  end.

(** ** The translator *)

(** The host: getpid(2); readlink(2) as the whole content of the link, or
    nothing when the call fails; stat(2) as the [st_mode] it fills in, or
    nothing when the call fails. *)
Variable getpid : Z.
Variable sys_readlink : list ascii -> option (list ascii).
Variable sys_stat : list ascii -> option Z.

(** extension/extension.h, for the event GUEST_PATH, and path/canon.h;
    both work on [result] in place. *)
Variable notify_extensions : Tracee -> buf -> buf -> Z * buf.
Variable canonicalize : Tracee -> buf -> bool -> buf -> nat -> Z * buf.

(** readlink(path, result, PATH_MAX): the status and the buffer. *)
Definition readlink (path : list ascii) (result : buf) : Z * buf :=
  match sys_readlink path with
  | None => ((-1)%Z, result)
  | Some target =>
      (Z.of_nat (Nat.min (length target) PATH_MAX),
       store result 0 (firstn PATH_MAX target))
  end.

(** [statl] is what the memory of the local variable of that name holds
    when the function is entered ([st_mode] only): nothing initialises
    it.  The two VERBOSE traces are left out. *)
Definition translate_path (statl : Z) (tracee : Tracee) (result : buf)
                          (dir_fd : Z) (fake_path : buf) (deref_final : bool)
  : run (Z * buf) :=
  (* tracee->pid == 0 until the first tracee has started. *)
  let pid := if (pid tracee =? 0)%Z then getpid else pid tracee in
  (* [inl]: the value returned at once; [inr]: the base, in [result]. *)
  base <-
    (* Use "/" as the base if it is an absolute [fake] path. *)
    if Ascii.eqb (get fake_path 0) SLASH then Ret (inr (strcpy result (lit "/")))
    else
      (* Format the path to the "virtual" link. *)
      let text :=
        if (dir_fd =? AT_FDCWD)%Z
        then lit "/proc/" ++ decimal pid ++ lit "/cwd"
        else lit "/proc/" ++ decimal pid ++ lit "/fd/" ++ decimal dir_fd in
      let link := firstn 31 text in
      let status := Z.of_nat (length text) in
      if (status <? 0)%Z then Ret (inl ((- EPERM)%Z, result)) else
      if (32 <=? status)%Z then Ret (inl ((- EPERM)%Z, result)) else
      (* Read the value of this "virtual" link. *)
      let '(status, result) := readlink link result in
      if (status <? 0)%Z then Ret (inl ((- EPERM)%Z, result)) else
      if (Z.of_nat PATH_MAX <=? status)%Z then Ret (inl ((- ENAMETOOLONG)%Z, result)) else
      let result := set result (Z.to_nat status) NUL in
      let not_a_directory :=
        if negb (dir_fd =? AT_FDCWD)%Z then
          (* Ensure it points to a directory. *)
          let statl :=
            match sys_stat (str result) with
            | Some st_mode => st_mode
            | None => statl
            end in
          negb (S_ISDIR statl)
        else false in
      if not_a_directory then Ret (inl ((- ENOTDIR)%Z, result)) else
      (* Remove the leading "root" part of the base (required!). *)
      detranslated <- detranslate_path tracee result None ;;
      let '(status, result) := detranslated in
      if (status <? 0)%Z then Ret (inl (status, result)) else Ret (inr result) ;;
  match base with
  | inl returned => Ret returned
  | inr result =>
      let '(status, result) := notify_extensions tracee result fake_path in
      if (status <? 0)%Z then Ret (status, result) else
      if (0 <? status)%Z then Ret (0%Z, result) else
      (* Canonicalize regarding the new root. *)
      let '(status, result) := canonicalize tracee fake_path deref_final result 0 in
      if (status <? 0)%Z then Ret (status, result) else
      (* Final binding substitution to convert "result" into a host path. *)
      let '(status, result) := substitute_binding tracee GUEST result in
      if (status <? 0)%Z then Ret (status, result) else
      Ret (0%Z, result)
  end.

End Engine.

(** ** Open file descriptors *)

(** atoi(3): blanks, an optional sign, then decimal digits. *)
Definition isspace (c : ascii) : bool :=
  let n := nat_of_ascii c in (n =? 32) || ((9 <=? n) && (n <=? 13)).

Definition isdigit (c : ascii) : bool :=
  let n := nat_of_ascii c in (48 <=? n) && (n <=? 57).

Fixpoint atoi_digits (s : list ascii) (acc : Z) : Z :=
  match s with
  | c :: s' =>
      if isdigit c
      then atoi_digits s' (10 * acc + (Z.of_nat (nat_of_ascii c) - 48))%Z
      else acc
  | [] => acc
  end.

Fixpoint atoi_blanks (s : list ascii) : list ascii :=
  match s with
  | c :: s' => if isspace c then atoi_blanks s' else s
  | [] => []
  end.

Definition atoi (s : buf) : Z :=
  match atoi_blanks (str s) with
  | c :: s' =>
      if Ascii.eqb c "-"%char then (- atoi_digits s' 0)%Z
      else if Ascii.eqb c "+"%char then atoi_digits s' 0%Z
      else atoi_digits (c :: s') 0%Z
  | [] => 0%Z
  end.

Section Descriptors.

Variable PATH_MAX : nat.

(** build.h *)
Variable HAVE_READLINKAT : bool.

(** The host: opendir(3) with the names readdir(3) will then give, in
    order, or nothing when the directory cannot be opened; readlink(2) and
    readlinkat(2), as in the translator, by the path of the link. *)
Variable sys_opendir : list ascii -> option (list buf).
Variable sys_readlink : list ascii -> option (list ascii).

(** What a callback may change besides its status. *)
Variable State : Type.

Definition foreach_fd_t : Type := Z -> Z -> buf -> State -> Z * State.

(** The [while] loop of [foreach_fd] over the entries readdir(3) has yet
    to give; [path] is the local buffer, which lives across the turns. *)
Fixpoint foreach_fd_loop (callback : foreach_fd_t) (pid : Z) (proc_fd : buf)
                         (entries : list buf) (path : buf) (s : State)
  : Z * State :=
  match entries with
  | [] => (0%Z, s)
  | d_name :: entries' =>
      (* Read the value of this "virtual" link. *)
      let link := str proc_fd ++ lit "/" ++ str d_name in
      if negb HAVE_READLINKAT
         && (PATH_MAX <=? strlen proc_fd + strlen d_name + 1)
      then foreach_fd_loop callback pid proc_fd entries' path s else
      let '(status, path) := readlink PATH_MAX sys_readlink link path in
      if (status <? 0)%Z || (Z.of_nat PATH_MAX <=? status)%Z
      then foreach_fd_loop callback pid proc_fd entries' path s else
      let path := set path (Z.to_nat status) NUL in
      (* Ensure it points to a path (not a socket or somethink like that). *)
      if negb (Ascii.eqb (get path 0) SLASH)
      then foreach_fd_loop callback pid proc_fd entries' path s else
      let '(status, s) := callback pid (atoi d_name) path s in
      if (status <? 0)%Z then (status, s)
      else foreach_fd_loop callback pid proc_fd entries' path s
  end.

(** closedir(3) ends every path through the function that opened the
    directory; it has no part in the result. *)
Definition foreach_fd (pid : Z) (callback : foreach_fd_t) (s : State) : Z * State :=
  (* Format the path to the "virtual" directory. *)
  let text := lit "/proc/" ++ decimal pid ++ lit "/fd" in
  let proc_fd := firstn 31 text in
  let status := Z.of_nat (length text) in
  if (status <? 0)%Z || (32 <=? status)%Z then (0%Z, s) else
  (* Open the virtual directory "/proc/$pid/fd". *)
  match sys_opendir proc_fd with
  | None => (0%Z, s)
  | Some entries => foreach_fd_loop callback pid proc_fd entries [] s
  end.

End Descriptors.

(** A notice of [list_open_fd]: pid, path and descriptor.  The log holds
    the notices that VERBOSE issues when the verbosity is 1 or more. *)
Definition notice : Type := Z * list ascii * Z.

Definition list_open_fd_callback (pid fd : Z) (path : buf) (log : list notice)
  : Z * list notice :=
  (0%Z, log ++ [(pid, str path, fd)]).

Definition list_open_fd (PATH_MAX : nat) (HAVE_READLINKAT : bool)
    (sys_opendir : list ascii -> option (list buf))
    (sys_readlink : list ascii -> option (list ascii))
    (pid : Z) (log : list notice) : Z * list notice :=
  foreach_fd PATH_MAX HAVE_READLINKAT sys_opendir sys_readlink (list notice)
             pid list_open_fd_callback log.

(** ** The words of the specification *)

Definition ends_with_slash (s : list ascii) : bool := is_slash (last s NUL).

(** "One trailing [/] is ignored". *)
Definition trim_slash (s : list ascii) : list ascii :=
  if ends_with_slash s then removelast s else s.

(** "One trailing [/] (if any and not the sole character) is ignored". *)
Definition trim_slash_unless_sole (s : list ascii) : list ascii :=
  if ends_with_slash s && negb (length s =? 1) then removelast s else s.

(** The comparison of section 4.B, for a way of trimming: with [m] the
    least of the trimmed lengths, [NOT_COMPARABLE] unless the byte at [m]
    in the longer string is [/] or NUL and the first [m] bytes agree. *)
Definition compare_spec (trim : list ascii -> list ascii) (p1 p2 : list ascii)
  : Comparison :=
  let l1 := length (trim p1) in
  let l2 := length (trim p2) in
  let m := Nat.min l1 l2 in
  let longer := if l1 <? l2 then p2 else p1 in
  let sentinel := nth m longer NUL in
  if (is_slash sentinel || Ascii.eqb sentinel NUL)
     && (if list_eq_dec ascii_dec (firstn m p1) (firstn m p2) then true else false)
  then if l1 =? l2 then PATHS_ARE_EQUAL
       else if l1 <? l2 then PATH1_IS_PREFIX
       else PATH2_IS_PREFIX
  else PATHS_ARE_NOT_COMPARABLE.

(** "//" occurs in the string. *)
Fixpoint has_double_slash (s : list ascii) : bool :=
  match s with
  | c1 :: (c2 :: _) as s' => (is_slash c1 && is_slash c2) || has_double_slash s'
  | _ => false
  end.

Definition drop_leading_slash (s : list ascii) : list ascii :=
  match s with
  | c :: s' => if is_slash c then s' else s
  | [] => []
  end.

(** Two fragments joined: one [/] stands between what precedes the
    separator of the first and what follows the separator of the second;
    nothing is added in front of the first fragment. *)
Definition junction (joined fragment : list ascii) : list ascii :=
  match joined with
  | [] => fragment
  | _ => trim_slash joined ++ [SLASH] ++ drop_leading_slash fragment
  end.

(** The strings of the fragments that are not NULL. *)
Definition fragments (paths : list (option buf)) : list (list ascii) :=
  flat_map (fun p => match p with Some b => [str b] | None => [] end) paths.

Definition join_spec (paths : list (option buf)) : list ascii :=
  fold_left junction (fragments paths) [].

(** The tag of a comparison whose arguments are swapped. *)
Definition swap_tags (c : Comparison) : Comparison :=
  match c with
  | PATH1_IS_PREFIX => PATH2_IS_PREFIX
  | PATH2_IS_PREFIX => PATH1_IS_PREFIX
  | c => c
  end.

(** The longest prefix whose bytes all satisfy [p], and what follows. *)
Fixpoint span (p : ascii -> bool) (s : list ascii) : list ascii * list ascii :=
  match s with
  | c :: s' =>
      if p c then let '(taken, rest) := span p s' in (c :: taken, rest)
      else ([], s)
  | [] => ([], [])
  end.

(** What the lexer has before it: separators, the component, the
    separators that trail it, and what remains of the input. *)
Definition lex_spec (s : list ascii)
  : list ascii * list ascii * list ascii * list ascii :=
  let '(leading, s) := span is_slash s in
  let '(component, s) := span not_slash s in
  let '(trailing, remains) := span is_slash s in
  (leading, component, trailing, remains).

(** The joined string stays below [PATH_MAX] after each fragment. *)
Fixpoint fits (PATH_MAX : nat) (frags : list (list ascii)) (joined : list ascii)
  : bool :=
  match frags with
  | [] => true
  | f :: frags' =>
      (length (junction joined f) <? PATH_MAX)
      && fits PATH_MAX frags' (junction joined f)
  end.

(** The calls [foreach_fd] has to make: for each entry whose link can be
    read and holds a path, the descriptor and the buffer handed to the
    callback; the other entries are passed over. *)
Fixpoint visited (PATH_MAX : nat) (HAVE_READLINKAT : bool)
    (sys_readlink : list ascii -> option (list ascii))
    (proc_fd : buf) (entries : list buf) (path : buf) : list (Z * buf) :=
  match entries with
  | [] => []
  | d_name :: entries' =>
      let next := visited PATH_MAX HAVE_READLINKAT sys_readlink proc_fd entries' in
      if negb HAVE_READLINKAT
         && (PATH_MAX <=? strlen proc_fd + strlen d_name + 1)
      then next path else
      match sys_readlink (str proc_fd ++ lit "/" ++ str d_name) with
      | None => next path
      | Some target =>
          let path := store path 0 (firstn PATH_MAX target) in
          if PATH_MAX <=? length target then next path else
          let path := set path (length target) NUL in
          if Ascii.eqb (get path 0) SLASH
          then (atoi d_name, path) :: next path
          else next path
      end
  end.

(** The callback run over the calls to make, up to its first negative
    status, which is the answer; 0 when there is none. *)
Fixpoint first_negative {State : Type} (callback : foreach_fd_t State) (pid : Z)
    (calls : list (Z * buf)) (s : State) : Z * State :=
  match calls with
  | [] => (0%Z, s)
  | (fd, path) :: calls' =>
      let '(status, s) := callback pid fd path s in
      if (status <? 0)%Z then (status, s)
      else first_negative callback pid calls' s
  end.

(** The notice [list_open_fd] owes to an entry of "/proc/<pid>/fd": one
    when its link can be read, fits the buffer and holds an absolute
    path, none otherwise. *)
Definition open_notice (PATH_MAX : nat) (HAVE_READLINKAT : bool)
    (sys_readlink : list ascii -> option (list ascii))
    (pid : Z) (proc_fd d_name : buf) : list notice :=
  if negb HAVE_READLINKAT && (PATH_MAX <=? strlen proc_fd + strlen d_name + 1)
  then [] else
  match sys_readlink (str proc_fd ++ lit "/" ++ str d_name) with
  | Some target =>
      if (length target <? PATH_MAX) && is_slash (get target 0)
      then [(pid, str target, atoi d_name)] else []
  | None => []
  end.

(** ** A host for the examples

    The rootfs is "/jail" and there is no binding, as in the scenarios
    of the specification; no extension is registered; the stand-in for
    the canonicalizer joins the path to its base, which is what
    canonicalization comes to on a path without ".", ".." and symbolic
    links. *)
Module Jail.

Definition PATH_MAX : nat := 4096.
Definition NAME_MAX : nat := 255.

Definition tracee : Tracee := mk_Tracee 42 (lit "/jail").

Definition get_path_binding (_ : Tracee) (_ : Side) (_ : buf) : option buf := None.

Definition substitute_binding (tracee : Tracee) (side : Side) (path : buf)
  : Z * buf :=
  match side with
  | GUEST => (1%Z, strcpy path (str (root tracee) ++ str path))
  | HOST => ((- ENOENT)%Z, path)
  end.

Definition readlink_proc2 (_ : Tracee) (result _ : buf) : nat * buf := (0, result).

Definition notify_extensions (_ : Tracee) (result _ : buf) : Z * buf := (0%Z, result).

Definition canonicalize (_ : Tracee) (fake_path : buf) (_ : bool) (result : buf)
    (_ : nat) : Z * buf :=
  (0%Z, strcpy result (junction (str result) (str fake_path))).

Definition getpid : Z := 7.

(** Descriptor 3 of the tracee was opened on a directory that has been
    removed since: the link can still be read, stat(2) fails. *)
Definition sys_readlink (link : list ascii) : option (list ascii) :=
  if list_eq_dec ascii_dec link (lit "/proc/42/fd/3")
  then Some (lit "/jail/gone (deleted)") else None.

Definition sys_stat (_ : list ascii) : option Z := None.

Definition sys_opendir (dir : list ascii) : option (list buf) :=
  if list_eq_dec ascii_dec dir (lit "/proc/42/fd")
  then Some [lit "."; lit ".."; lit "0"; lit "3"] else None.

End Jail.

(** * Properties *)

(** [is_true b] and [is_false b] replace the test [b] on numbers by the
    value that arithmetic gives it. *)
Ltac settle_test :=
  symmetry;
  first [ apply Nat.ltb_lt | apply Nat.ltb_ge | apply Nat.leb_le
        | apply Nat.leb_gt | apply Nat.eqb_eq | apply Nat.eqb_neq
        | apply Z.ltb_lt | apply Z.ltb_ge | apply Z.leb_le
        | apply Z.leb_gt | apply Z.eqb_eq | apply Z.eqb_neq ];
  lia.

Tactic Notation "is_true" constr(b) := replace b with true by settle_test.
Tactic Notation "is_true" constr(b) "in" hyp(H) :=
  replace b with true in H by settle_test.
Tactic Notation "is_false" constr(b) := replace b with false by settle_test.
Tactic Notation "is_false" constr(b) "in" hyp(H) :=
  replace b with false in H by settle_test.

(** ** Buffers *)

Lemma eqb_NUL_false (c : ascii) : c <> NUL -> Ascii.eqb c NUL = false.
Proof. intro H. now apply Ascii.eqb_neq. Qed.

Lemma get_nil (i : nat) : get [] i = NUL.
Proof. unfold get. now destruct i. Qed.

Lemma get_cons_S (c : ascii) (b : buf) (i : nat) : get (c :: b) (S i) = get b i.
Proof. reflexivity. Qed.

Lemma get_tl (b : buf) (i : nat) : get (tl b) i = get b (S i).
Proof. destruct b; simpl; [now rewrite !get_nil | reflexivity]. Qed.

Lemma get_at_off (b : buf) (i j : nat) : get (at_off b i) j = get b (i + j).
Proof.
  unfold at_off. revert b. induction i as [|i IH]; intro b; simpl.
  - reflexivity.
  - destruct b as [|c b]; [now rewrite !get_nil | apply IH].
Qed.

Lemma get_set (b : buf) (i j : nat) (c : ascii) :
  get (set b i c) j = if i =? j then c else get b j.
Proof.
  unfold get. revert b j.
  induction i as [|i IH]; intros [|x b] [|j]; simpl; try reflexivity.
  - now destruct j.
  - rewrite IH. now destruct (i =? j), j.
  - apply IH.
Qed.

Lemma get_store (l : list ascii) (b : buf) (i j : nat) :
  get (store b i l) j =
  if (i <=? j) && (j <? i + length l) then nth (j - i) l NUL else get b j.
Proof.
  revert b i. induction l as [|c l IH]; intros b i; simpl.
  - destruct (i <=? j) eqn:E; simpl; [|reflexivity].
    destruct (j <? i + 0) eqn:F; [|reflexivity].
    apply Nat.leb_le in E. apply Nat.ltb_lt in F. lia.
  - rewrite IH, get_set.
    destruct (Nat.eq_dec i j) as [->|N].
    + rewrite Nat.eqb_refl, Nat.leb_refl, Nat.sub_diag.
      is_false (S j <=? j).
      is_true (j <? j + S (length l)).
      reflexivity.
    + is_false (i =? j).
      destruct (le_lt_dec i j) as [L|L].
      * is_true (S i <=? j).
        is_true (i <=? j).
        replace (j <? i + S (length l)) with (j <? S i + length l)
          by (f_equal; lia).
        simpl. destruct (j <? S (i + length l)); [|reflexivity].
        replace (j - i) with (S (j - S i)) by lia. reflexivity.
      * is_false (S i <=? j).
        is_false (i <=? j).
        reflexivity.
Qed.

Lemma get_store_in (l : list ascii) (b : buf) (i j : nat) :
  i <= j < i + length l -> get (store b i l) j = nth (j - i) l NUL.
Proof.
  intros [H1 H2]. rewrite get_store.
  is_true (i <=? j).
  is_true (j <? i + length l).
  reflexivity.
Qed.

Lemma get_store_out (l : list ascii) (b : buf) (i j : nat) :
  j < i \/ i + length l <= j -> get (store b i l) j = get b j.
Proof.
  intros H. rewrite get_store.
  destruct (i <=? j) eqn:E; [|reflexivity].
  destruct (j <? i + length l) eqn:F; [|reflexivity].
  apply Nat.leb_le in E. apply Nat.ltb_lt in F. lia.
Qed.

(** [strlen] finds the first NUL. *)
Lemma get_strlen (b : buf) : get b (strlen b) = NUL.
Proof.
  induction b as [|c b IH]; simpl; [reflexivity|].
  destruct (Ascii.eqb c NUL) eqn:E; [now apply Ascii.eqb_eq in E | exact IH].
Qed.

Lemma get_before_strlen (b : buf) (i : nat) : i < strlen b -> get b i <> NUL.
Proof.
  revert i. induction b as [|c b IH]; simpl; intros i H; [lia|].
  destruct (Ascii.eqb c NUL) eqn:E; [lia|].
  destruct i as [|i]; [now apply Ascii.eqb_neq in E|].
  rewrite get_cons_S. apply IH. lia.
Qed.

Lemma strlen_unique (b : buf) (n : nat) :
  (forall i, i < n -> get b i <> NUL) -> get b n = NUL -> strlen b = n.
Proof.
  intros H1 H2.
  destruct (lt_eq_lt_dec (strlen b) n) as [[L|E]|L]; [|exact E|].
  - exfalso. apply (H1 _ L), get_strlen.
  - exfalso. now apply (get_before_strlen b n L).
Qed.

Lemma strlen_le_length (b : buf) : strlen b <= length b.
Proof.
  induction b as [|c b IH]; simpl; [lia|]. destruct (Ascii.eqb c NUL); lia.
Qed.

Lemma length_str (b : buf) : length (str b) = strlen b.
Proof. unfold str. rewrite length_firstn. pose proof (strlen_le_length b). lia. Qed.

Lemma nth_str (b : buf) (i : nat) : i <= strlen b -> nth i (str b) NUL = get b i.
Proof.
  intro H. destruct (Nat.eq_dec i (strlen b)) as [->|N].
  - rewrite get_strlen. apply nth_overflow. rewrite length_str. lia.
  - unfold str, get. rewrite nth_firstn.
    is_true (i <? strlen b).
    reflexivity.
Qed.

Lemma str_no_NUL (b : buf) : ~ In NUL (str b).
Proof.
  intro H. apply (In_nth _ _ NUL) in H. destruct H as (i & Hi & E).
  rewrite length_str in Hi. rewrite nth_str in E by lia.
  now apply (get_before_strlen b i Hi).
Qed.

(** A buffer holds the string [l] when it has the bytes of [l] and then
    a NUL. *)
Lemma str_intro (b : buf) (l : list ascii) :
  ~ In NUL l ->
  (forall i, i < length l -> get b i = nth i l NUL) ->
  get b (length l) = NUL ->
  str b = l.
Proof.
  intros HN Hget Hend.
  assert (Hlen : strlen b = length l).
  { apply strlen_unique; [|exact Hend].
    intros i Hi E. rewrite Hget in E by exact Hi.
    apply HN. rewrite <- E. now apply nth_In. }
  apply (nth_ext _ _ NUL NUL).
  - now rewrite length_str.
  - intros i Hi. rewrite length_str in Hi.
    rewrite nth_str by lia. apply Hget. lia.
Qed.

Lemma str_ext (b1 b2 : buf) :
  (forall i, i <= strlen b1 -> get b2 i = get b1 i) -> str b2 = str b1.
Proof.
  intro H. apply str_intro.
  - apply str_no_NUL.
  - intros i Hi. rewrite length_str in Hi. rewrite nth_str by lia. apply H. lia.
  - rewrite length_str, H by lia. apply get_strlen.
Qed.

Lemma str_lit_str (b : buf) : str (str b) = str b.
Proof.
  apply str_intro.
  - apply str_no_NUL.
  - intros i _. reflexivity.
  - unfold get. apply nth_overflow. lia.
Qed.

Lemma str_no_NUL_id (l : list ascii) : ~ In NUL l -> str l = l.
Proof.
  intro H. apply str_intro; [exact H | reflexivity |].
  unfold get. apply nth_overflow. lia.
Qed.

Lemma strlen_str (b : buf) : strlen (str b) = strlen b.
Proof. now rewrite <- length_str, str_lit_str, length_str. Qed.

Lemma strlen_at_off (b : buf) (i : nat) :
  i <= strlen b -> strlen (at_off b i) = strlen b - i.
Proof.
  intro H. apply strlen_unique.
  - intros j Hj. rewrite get_at_off. apply get_before_strlen. lia.
  - rewrite get_at_off. replace (i + (strlen b - i)) with (strlen b) by lia.
    apply get_strlen.
Qed.

Lemma str_at_off (b : buf) (i : nat) :
  i <= strlen b -> str (at_off b i) = skipn i (str b).
Proof.
  intro H. apply str_intro.
  - intro HIn. apply (str_no_NUL b).
    rewrite <- (firstn_skipn i (str b)). apply in_or_app. now right.
  - intros j Hj. rewrite length_skipn, length_str in Hj.
    rewrite get_at_off, nth_skipn, nth_str by lia. reflexivity.
  - rewrite length_skipn, length_str, get_at_off.
    replace (i + (strlen b - i)) with (strlen b) by lia. apply get_strlen.
Qed.

Lemma strlen_pos_get (b : buf) : 0 < strlen b <-> get b 0 <> NUL.
Proof.
  split.
  - apply get_before_strlen.
  - intro H. destruct (strlen b) eqn:E; [|lia].
    exfalso. apply H. rewrite <- E. apply get_strlen.
Qed.

(** ** Lists *)

Lemma last_nth (l : list ascii) (d : ascii) : last l d = nth (length l - 1) l d.
Proof.
  induction l as [|c l IH]; [reflexivity|].
  destruct l as [|c' l]; [reflexivity|].
  change (last (c :: c' :: l) d) with (last (c' :: l) d). rewrite IH.
  simpl. now rewrite Nat.sub_0_r.
Qed.

Lemma length_removelast (l : list ascii) : length (removelast l) = length l - 1.
Proof. rewrite removelast_firstn_len, length_firstn. lia. Qed.

Lemma length_trim_slash (s : list ascii) :
  length (trim_slash s) = if ends_with_slash s then length s - 1 else length s.
Proof.
  unfold trim_slash. destruct (ends_with_slash s); [apply length_removelast | reflexivity].
Qed.

Lemma ends_with_slash_nonempty (s : list ascii) : ends_with_slash s = true -> s <> [].
Proof. intros H ->. discriminate H. Qed.

Lemma trim_slash_app (s : list ascii) :
  ends_with_slash s = true -> s = trim_slash s ++ [SLASH].
Proof.
  intro H. unfold trim_slash. rewrite H.
  rewrite (app_removelast_last NUL (ends_with_slash_nonempty s H)) at 1.
  unfold ends_with_slash, is_slash in H. apply Ascii.eqb_eq in H. now rewrite H.
Qed.

(** The byte that follows the trimmed part is the trimmed [/] or the NUL
    past the end. *)
Lemma sentinel_after_trim (s : list ascii) :
  let c := nth (length (trim_slash s)) s NUL in
  is_slash c || Ascii.eqb c NUL = true.
Proof.
  cbv zeta. destruct (ends_with_slash s) eqn:E.
  - rewrite (trim_slash_app s E) at 2. rewrite nth_middle. reflexivity.
  - unfold trim_slash. rewrite E, nth_overflow by lia.
    apply orb_true_iff. right. apply Ascii.eqb_refl.
Qed.

(** ** The comparator *)

Lemma str_unfold (b : buf) :
  str b = if Ascii.eqb (get b 0) NUL then [] else get b 0 :: str (tl b).
Proof.
  destruct b as [|c b]; [reflexivity|].
  unfold str, get. cbn [strlen nth tl]. now destruct (Ascii.eqb c NUL).
Qed.

Lemma nat_of_ascii_inj (c1 c2 : ascii) : nat_of_ascii c1 = nat_of_ascii c2 -> c1 = c2.
Proof.
  intro H. rewrite <- (ascii_nat_embedding c1), <- (ascii_nat_embedding c2).
  now rewrite H.
Qed.

(** [strncmp] answers 0 exactly when the two strings agree on their
    first [n] bytes. *)
Lemma strncmp_zero (n : nat) (s1 s2 : buf) :
  strncmp s1 s2 n = 0%Z <-> firstn n (str s1) = firstn n (str s2).
Proof.
  revert s1 s2. induction n as [|n IH]; intros s1 s2; [simpl; tauto|].
  cbn [strncmp]. rewrite (str_unfold s1), (str_unfold s2).
  destruct (Ascii.eqb (get s1 0) (get s2 0)) eqn:E; cbn [negb].
  - apply Ascii.eqb_eq in E. rewrite <- E.
    destruct (Ascii.eqb (get s1 0) NUL); [simpl; tauto|].
    cbn [firstn]. rewrite IH. split; [now intros -> | now intros [= ->]].
  - apply Ascii.eqb_neq in E. split.
    + intro H. exfalso. apply E, nat_of_ascii_inj. lia.
    + intro H. exfalso.
      destruct (Ascii.eqb (get s1 0) NUL) eqn:E1, (Ascii.eqb (get s2 0) NUL) eqn:E2;
        cbn [firstn] in H; try discriminate H.
      * apply Ascii.eqb_eq in E1, E2. congruence.
      * injection H as H _. contradiction.
Qed.

Lemma ends_with_slash_str (p : buf) :
  Ascii.eqb (get p (strlen p - 1)) SLASH = ends_with_slash (str p).
Proof.
  unfold ends_with_slash, is_slash.
  rewrite last_nth, length_str, nth_str by lia. reflexivity.
Qed.

(** The code computes the comparison of the specification in which the
    trailing [/] is always set aside. *)
Lemma compare_paths_trim (p1 p2 : buf) :
  0 < strlen p1 -> 0 < strlen p2 ->
  compare_paths p1 p2 = Ret (compare_spec trim_slash (str p1) (str p2)).
Proof.
  intros H1 H2. unfold compare_paths, compare_paths2, compare_spec.
  is_true (0 <? strlen p1).
  is_true (0 <? strlen p2).
  is_false (strlen p1 =? 0).
  is_false (strlen p2 =? 0).
  cbn [assert bind orb].
  rewrite !ends_with_slash_str, !length_trim_slash, !length_str.
  set (l1 := if ends_with_slash (str p1) then strlen p1 - 1 else strlen p1).
  set (l2 := if ends_with_slash (str p2) then strlen p2 - 1 else strlen p2).
  assert (L1 : l1 <= strlen p1) by (unfold l1; destruct (ends_with_slash (str p1)); lia).
  assert (L2 : l2 <= strlen p2) by (unfold l2; destruct (ends_with_slash (str p2)); lia).
  destruct (l1 <? l2) eqn:Lt.
  - apply Nat.ltb_lt in Lt. rewrite Nat.min_l by lia.
    rewrite nth_str by lia. unfold is_slash.
    destruct (Ascii.eqb (get p2 l1) SLASH) eqn:Esl; cbn [negb andb orb].
    + destruct (list_eq_dec ascii_dec _ _) as [F|F].
      * apply strncmp_zero in F. rewrite F. cbn.
        is_false (l1 =? l2).
        reflexivity.
      * rewrite <- strncmp_zero in F. apply Z.eqb_neq in F. now rewrite F.
    + destruct (Ascii.eqb (get p2 l1) NUL); cbn [negb andb]; [|reflexivity].
      destruct (list_eq_dec ascii_dec _ _) as [F|F].
      * apply strncmp_zero in F. rewrite F. cbn.
        is_false (l1 =? l2).
        reflexivity.
      * rewrite <- strncmp_zero in F. apply Z.eqb_neq in F. now rewrite F.
  - apply Nat.ltb_ge in Lt. rewrite Nat.min_r by lia.
    rewrite nth_str by lia. unfold is_slash.
    assert (Tail : (if l1 =? l2 then Ret PATHS_ARE_EQUAL
                    else if l2 <? l1 then Ret PATH2_IS_PREFIX
                    else assert! false ;; Ret PATHS_ARE_NOT_COMPARABLE)
                   = Ret (if l1 =? l2 then PATHS_ARE_EQUAL else PATH2_IS_PREFIX)).
    { destruct (l1 =? l2) eqn:Q; [reflexivity|].
      apply Nat.eqb_neq in Q.
      is_true (l2 <? l1).
      reflexivity. }
    destruct (Ascii.eqb (get p1 l2) SLASH) eqn:Esl; cbn [negb andb orb].
    + destruct (list_eq_dec ascii_dec _ _) as [F|F].
      * apply strncmp_zero in F. rewrite F. cbn [Z.eqb negb]. exact Tail.
      * rewrite <- strncmp_zero in F. apply Z.eqb_neq in F. now rewrite F.
    + destruct (Ascii.eqb (get p1 l2) NUL); cbn [negb andb]; [|reflexivity].
      destruct (list_eq_dec ascii_dec _ _) as [F|F].
      * apply strncmp_zero in F. rewrite F. cbn [Z.eqb negb]. exact Tail.
      * rewrite <- strncmp_zero in F. apply Z.eqb_neq in F. now rewrite F.
Qed.

Lemma compare_paths_empty (p1 p2 : buf) :
  strlen p1 = 0 \/ strlen p2 = 0 -> compare_paths p1 p2 = Abort.
Proof.
  unfold compare_paths, compare_paths2.
  intros [-> | ->]; [reflexivity|]. now destruct (0 <? strlen p1).
Qed.

(** Swapping the arguments swaps the two prefix tags. *)
Lemma compare_spec_swap (a b : list ascii) :
  compare_spec trim_slash b a = swap_tags (compare_spec trim_slash a b).
Proof.
  unfold compare_spec.
  set (la := length (trim_slash a)). set (lb := length (trim_slash b)).
  destruct (lt_eq_lt_dec la lb) as [[L|E]|L].
  - is_true (la <? lb).
    is_false (lb <? la).
    is_false (la =? lb).
    is_false (lb =? la).
    rewrite (Nat.min_l la lb), (Nat.min_r lb la) by lia.
    destruct (is_slash _ || _); [|reflexivity]. cbn [andb].
    destruct (list_eq_dec ascii_dec (firstn la b) (firstn la a)),
             (list_eq_dec ascii_dec (firstn la a) (firstn la b));
      try reflexivity; congruence.
  - is_false (la <? lb).
    is_false (lb <? la).
    is_true (la =? lb).
    is_true (lb =? la).
    rewrite <- E, Nat.min_id.
    pose proof (sentinel_after_trim a) as Sa. pose proof (sentinel_after_trim b) as Sb.
    cbv zeta in Sa, Sb. fold la in Sa. fold lb in Sb. rewrite <- E in Sb.
    rewrite Sa, Sb. cbn [andb].
    destruct (list_eq_dec ascii_dec (firstn la b) (firstn la a)),
             (list_eq_dec ascii_dec (firstn la a) (firstn la b));
      try reflexivity; congruence.
  - is_false (la <? lb).
    is_true (lb <? la).
    is_false (la =? lb).
    is_false (lb =? la).
    rewrite (Nat.min_r la lb), (Nat.min_l lb la) by lia.
    destruct (is_slash _ || _); [|reflexivity]. cbn [andb].
    destruct (list_eq_dec ascii_dec (firstn lb b) (firstn lb a)),
             (list_eq_dec ascii_dec (firstn lb a) (firstn lb b));
      try reflexivity; congruence.
Qed.

Lemma compare_paths_swap (a b : buf) :
  compare_paths b a =
  match compare_paths a b with Ret c => Ret (swap_tags c) | Abort => Abort end.
Proof.
  destruct (Nat.eq_dec (strlen a) 0) as [Ea|Na].
  { rewrite !compare_paths_empty by auto. reflexivity. }
  destruct (Nat.eq_dec (strlen b) 0) as [Eb|Nb].
  { rewrite !compare_paths_empty by auto. reflexivity. }
  rewrite !compare_paths_trim by lia. now rewrite compare_spec_swap.
Qed.

Lemma trim_slash_unless_sole_eq (s : list ascii) :
  s <> [SLASH] -> trim_slash_unless_sole s = trim_slash s.
Proof.
  intro H. unfold trim_slash_unless_sole, trim_slash.
  destruct (ends_with_slash s) eqn:E; [|reflexivity].
  destruct (length s =? 1) eqn:L; [|reflexivity].
  exfalso. apply H. apply Nat.eqb_eq in L.
  destruct s as [|c [|c' s]]; try discriminate L.
  unfold ends_with_slash, is_slash in E. cbn in E. apply Ascii.eqb_eq in E.
  now subst c.
Qed.

(** C1 (amended). On two paths that are not empty, [compare_paths]
    computes the comparison of section 4.B with one trailing [/] set
    aside on each side, also when that [/] is the whole path: with [m]
    the least of the trimmed lengths, the answer is
    [PATHS_ARE_NOT_COMPARABLE] unless the byte at [m] in the longer
    string is [/] or NUL and the first [m] bytes agree, and otherwise
    tells which trimmed length is the shorter.  When neither path is "/"
    this is the comparison in which a sole [/] is kept.  "/foo" and
    "/foobar" are not comparable. *)
Theorem compare_paths_spec (p1 p2 : buf) :
  0 < strlen p1 -> 0 < strlen p2 ->
  compare_paths p1 p2 = Ret (compare_spec trim_slash (str p1) (str p2)) /\
  (str p1 <> [SLASH] -> str p2 <> [SLASH] ->
   compare_paths p1 p2
   = Ret (compare_spec trim_slash_unless_sole (str p1) (str p2))) /\
  compare_paths (lit "/foo") (lit "/foobar") = Ret PATHS_ARE_NOT_COMPARABLE.
Proof.
  intros H1 H2. split; [|split].
  - now apply compare_paths_trim.
  - intros N1 N2. rewrite compare_paths_trim by assumption.
    unfold compare_spec. now rewrite !trim_slash_unless_sole_eq.
  - reflexivity.
Qed.

(** C6. Swapping the two paths keeps the tag [PATHS_ARE_EQUAL] and
    exchanges [PATH1_IS_PREFIX] with [PATH2_IS_PREFIX]. *)
Theorem compare_paths_symmetric (a b : buf) :
  (compare_paths a b = Ret PATHS_ARE_EQUAL <->
   compare_paths b a = Ret PATHS_ARE_EQUAL) /\
  (compare_paths a b = Ret PATH1_IS_PREFIX <->
   compare_paths b a = Ret PATH2_IS_PREFIX).
Proof.
  rewrite (compare_paths_swap a b).
  destruct (compare_paths a b) as [[]|]; cbn [swap_tags];
    repeat split; intro H; try discriminate H; reflexivity.
Qed.

(** ** The lexer *)

Lemma span_app (p : ascii -> bool) (s : list ascii) :
  fst (span p s) ++ snd (span p s) = s.
Proof.
  induction s as [|c s IH]; [reflexivity|]. cbn [span].
  destruct (p c); [|reflexivity].
  destruct (span p s) as [taken rest]. cbn [fst snd app] in *. now f_equal.
Qed.

Lemma span_stops (p : ascii -> bool) (s : list ascii) :
  match snd (span p s) with c :: _ => p c = false | [] => True end.
Proof.
  induction s as [|c s IH]; [exact I|]. cbn [span].
  destruct (p c) eqn:E; [|exact E].
  now destruct (span p s) as [taken rest].
Qed.

Lemma span_taken (p : ascii -> bool) (s : list ascii) :
  Forall (fun c => p c = true) (fst (span p s)).
Proof.
  induction s as [|c s IH]; [constructor|]. cbn [span].
  destruct (p c) eqn:E; [|constructor].
  destruct (span p s) as [taken rest]. cbn [fst] in *. now constructor.
Qed.

(** The loop stops where [span] does. *)
Lemma advance_span (cond : ascii -> bool) (b : buf) (cursor : nat) :
  advance cond b cursor = cursor + length (fst (span cond (str b))).
Proof.
  revert cursor. induction b as [|c b IH]; intro cursor; [cbn; lia|].
  rewrite str_unfold. unfold get. cbn [advance nth tl].
  destruct (Ascii.eqb c NUL); cbn [negb andb]; [cbn; lia|].
  cbn [span]. destruct (cond c); [|cbn; lia].
  rewrite IH. destruct (span cond (str b)) as [taken rest]. cbn [fst length]. lia.
Qed.

Lemma advance_at_off (cond : ascii -> bool) (path : buf) (cursor : nat) :
  cursor <= strlen path ->
  advance cond (at_off path cursor) cursor =
  cursor + length (fst (span cond (skipn cursor (str path)))).
Proof. intro H. now rewrite advance_span, str_at_off. Qed.

Lemma get_hd_skipn (path : buf) (k : nat) :
  k <= strlen path -> get path k = hd NUL (skipn k (str path)).
Proof.
  intro H. rewrite <- nth_str by exact H.
  rewrite <- (Nat.add_0_r k) at 1. rewrite <- nth_skipn.
  now destruct (skipn k (str path)).
Qed.

Lemma skipn_app_length (l1 l2 : list ascii) : skipn (length l1) (l1 ++ l2) = l2.
Proof. induction l1; [reflexivity | assumption]. Qed.

Lemma firstn_app_length (l1 l2 : list ascii) : firstn (length l1) (l1 ++ l2) = l1.
Proof. induction l1; cbn; [reflexivity | now f_equal]. Qed.

Lemma skipn_skipn_add (k n : nat) (l : list ascii) :
  skipn n (skipn k l) = skipn (k + n) l.
Proof.
  revert l. induction k as [|k IH]; intro l; [reflexivity|].
  destruct l as [|c l]; [now rewrite !skipn_nil | apply IH].
Qed.

Lemma strncpy_bytes_firstn (n : nat) (src : buf) :
  n <= strlen src -> strncpy_bytes src n = firstn n (str src).
Proof.
  revert src. induction n as [|n IH]; intros src H; [reflexivity|].
  cbn [strncpy_bytes]. rewrite (str_unfold src).
  destruct (Ascii.eqb (get src 0) NUL) eqn:E.
  - exfalso. apply Ascii.eqb_eq in E.
    apply (get_before_strlen src 0); [lia | exact E].
  - cbn [firstn]. f_equal. apply IH.
    assert (strlen src = S (strlen (tl src))) as Hs.
    { rewrite <- !length_str, (str_unfold src), E. reflexivity. }
    lia.
Qed.

(** [component] after [strncpy] of [n] bytes of a long enough string
    and the write of the NUL. *)
Lemma str_strncpy_set (component src : buf) (n : nat) :
  n <= strlen src ->
  str (set (strncpy component src n) n NUL) = firstn n (str src).
Proof.
  intro H.
  assert (L : length (firstn n (str src)) = n).
  { rewrite length_firstn, length_str. lia. }
  apply str_intro.
  - intro HIn. apply (str_no_NUL src).
    rewrite <- (firstn_skipn n (str src)). apply in_or_app. now left.
  - intros i Hi. rewrite L in Hi. rewrite get_set.
    is_false (n =? i).
    unfold strncpy. rewrite strncpy_bytes_firstn by exact H.
    rewrite get_store_in by (rewrite L; lia). now rewrite Nat.sub_0_r.
  - rewrite L, get_set, Nat.eqb_refl. reflexivity.
Qed.

Lemma is_slash_not_NUL (c : ascii) : is_slash c = true -> c <> NUL.
Proof. unfold is_slash. intros H ->. discriminate H. Qed.

(** The lexer against the decomposition of the input at the cursor. *)
Lemma next_component_lex (NAME_MAX : nat) (component path : buf) (cursor : nat)
      (leading comp trailing remains : list ascii) :
  cursor <= strlen path ->
  lex_spec (skipn cursor (str path)) = (leading, comp, trailing, remains) ->
  if NAME_MAX <=? length comp
  then next_component NAME_MAX component path cursor =
       mk_lexed (inl (- ENAMETOOLONG)%Z) component
                (cursor + length leading + length comp)
  else exists component',
       str component' = comp /\
       next_component NAME_MAX component path cursor =
       mk_lexed
         (inr match remains, trailing with
              | [], [] => FINAL_NORMAL
              | [], _ => FINAL_SLASH
              | _, _ => NOT_FINAL
              end)
         component'
         (cursor + length leading + length comp + length trailing).
Proof.
  intros Hc Hlex. unfold lex_spec in Hlex.
  set (s := skipn cursor (str path)) in *.
  pose proof (span_app is_slash s) as A1.
  destruct (span is_slash s) as [l1 r1] eqn:S1. cbn [fst snd] in A1.
  pose proof (span_app not_slash r1) as A2.
  pose proof (span_stops not_slash r1) as T2.
  destruct (span not_slash r1) as [l2 r2] eqn:S2. cbn [fst snd] in A2, T2.
  pose proof (span_app is_slash r2) as A3.
  pose proof (span_stops is_slash r2) as T3.
  pose proof (span_taken is_slash r2) as K3.
  destruct (span is_slash r2) as [l3 r3] eqn:S3. cbn [fst snd] in A3, T3, K3.
  injection Hlex as <- <- <- <-.
  assert (Ls : length s = strlen path - cursor).
  { unfold s. now rewrite length_skipn, length_str. }
  assert (Lsum : length l1 + length l2 + length l3 + length r3 = strlen path - cursor).
  { rewrite <- Ls, <- A1, <- A2, <- A3, !length_app. lia. }
  unfold next_component.
  rewrite (advance_at_off is_slash path cursor Hc). fold s. rewrite S1. cbn [fst].
  set (c1 := cursor + length l1).
  assert (R1 : skipn c1 (str path) = r1).
  { unfold c1. rewrite <- skipn_skipn_add. fold s. rewrite <- A1. apply skipn_app_length. }
  rewrite (advance_at_off not_slash path c1) by (unfold c1; lia).
  rewrite R1, S2. cbn [fst].
  replace (c1 + length l2 - c1) with (length l2) by lia.
  destruct (NAME_MAX <=? length l2); [reflexivity|].
  set (c2 := c1 + length l2).
  assert (R2 : skipn c2 (str path) = r2).
  { unfold c2. rewrite <- skipn_skipn_add, R1, <- A2. apply skipn_app_length. }
  rewrite (advance_at_off is_slash path c2) by (unfold c2, c1; lia).
  rewrite R2, S3. cbn [fst].
  set (c3 := c2 + length l3).
  assert (R3 : skipn c3 (str path) = r3).
  { unfold c3. rewrite <- skipn_skipn_add, R2, <- A3. apply skipn_app_length. }
  rewrite (get_hd_skipn path c3) by (unfold c3, c2, c1; lia).
  rewrite (get_hd_skipn path c2) by (unfold c2, c1; lia).
  rewrite R2, R3.
  assert (N3 : match r3 with [] => True | c :: _ => c <> NUL end).
  { destruct r3 as [|c r3']; [exact I|]. intro E.
    apply (str_no_NUL path). rewrite <- (firstn_skipn c3 (str path)), R3.
    apply in_or_app. right. left. exact E. }
  exists (set (strncpy component (at_off path c1) (length l2)) (length l2) NUL).
  split.
  { rewrite str_strncpy_set by (rewrite strlen_at_off; unfold c1; lia).
    rewrite str_at_off by (unfold c1; lia).
    rewrite R1, <- A2. apply firstn_app_length. }
  destruct r3 as [|c r3'].
  - cbn [hd]. rewrite Ascii.eqb_refl. rewrite app_nil_r in A3. subst r2.
    destruct l3 as [|c l3']; [reflexivity|].
    cbn [hd]. inversion K3 as [|? ? Hs _]. unfold is_slash in Hs. now rewrite Hs.
  - cbn [hd]. rewrite (eqb_NUL_false c N3).
    destruct l3; reflexivity.
Qed.

Lemma span_all (p : ascii -> bool) (s : list ascii) :
  Forall (fun c => p c = true) s -> span p s = (s, []).
Proof.
  induction 1 as [|c s Hc _ IH]; [reflexivity|]. cbn [span]. now rewrite Hc, IH.
Qed.

(** C5. Whatever the input and the cursor in it, [next_component] fails
    with -ENAMETOOLONG exactly when the component it would extract has
    [NAME_MAX] bytes or more; otherwise it extracts the component, moves
    the cursor past the separators that trail it, and answers [NOT_FINAL]
    when input remains there, [FINAL_SLASH] when the input ends there
    after at least one trailing separator, and [FINAL_NORMAL] when the
    input ends right after the component. *)
Theorem next_component_finality (NAME_MAX : nat) (component path : buf)
        (cursor : nat) (leading comp trailing remains : list ascii) :
  cursor <= strlen path ->
  lex_spec (skipn cursor (str path)) = (leading, comp, trailing, remains) ->
  let r := next_component NAME_MAX component path cursor in
  (lx_result r = inl (- ENAMETOOLONG)%Z <-> NAME_MAX <= length comp) /\
  (length comp < NAME_MAX ->
   str (lx_component r) = comp /\
   lx_cursor r = cursor + length leading + length comp + length trailing /\
   (remains <> [] -> lx_result r = inr NOT_FINAL) /\
   (remains = [] -> trailing <> [] -> lx_result r = inr FINAL_SLASH) /\
   (remains = [] -> trailing = [] -> lx_result r = inr FINAL_NORMAL)).
Proof.
  intros Hc Hlex r.
  pose proof (next_component_lex NAME_MAX component path cursor _ _ _ _ Hc Hlex) as H.
  fold r in H. destruct (NAME_MAX <=? length comp) eqn:E.
  - apply Nat.leb_le in E. rewrite H. cbn [lx_result]. split; [tauto|].
    intro L. lia.
  - apply Nat.leb_gt in E. destruct H as (component' & Hstr & ->).
    cbn [lx_result lx_component lx_cursor]. split.
    + split; [discriminate | lia].
    + intros _. repeat split; trivial.
      * intro N. destruct remains; [contradiction | reflexivity].
      * intros -> N. destruct trailing; [contradiction | reflexivity].
      * now intros -> ->.
Qed.

(** C10. On an input that is empty or made of separators only, the
    leading skip takes every separator: the component is empty and the
    answer is [FINAL_NORMAL], not [FINAL_SLASH]. *)
Theorem next_component_only_slashes (NAME_MAX : nat) (component path : buf)
        (cursor : nat) :
  0 < NAME_MAX ->
  cursor <= strlen path ->
  Forall (fun c => c = SLASH) (skipn cursor (str path)) ->
  let r := next_component NAME_MAX component path cursor in
  lx_result r = inr FINAL_NORMAL /\
  str (lx_component r) = [] /\
  lx_cursor r = strlen path.
Proof.
  intros HN Hc Hall r.
  assert (Hlex : lex_spec (skipn cursor (str path))
                 = (skipn cursor (str path), [], [], [])).
  { unfold lex_spec. rewrite span_all; [reflexivity|].
    revert Hall. apply Forall_impl. now intros c ->. }
  pose proof (next_component_lex NAME_MAX component path cursor _ _ _ _ Hc Hlex) as H.
  fold r in H. cbn [length] in H.
  is_false (NAME_MAX <=? 0) in H.
  destruct H as (component' & Hstr & ->). cbn [lx_result lx_component lx_cursor].
  repeat split; trivial.
  rewrite length_skipn, length_str. lia.
Qed.

(** ** [pop_component] *)

Lemma retreat_SS (cond : ascii -> bool) (path : buf) (o : nat) :
  retreat cond path (S (S o)) =
  if cond (get path (S (S o))) then retreat cond path (S o) else S (S o).
Proof. reflexivity. Qed.

Lemma retreat_bounds (cond : ascii -> bool) (path : buf) (offset : nat) :
  1 <= offset -> 1 <= retreat cond path offset <= offset.
Proof.
  induction offset as [|o IH]; intro H; [lia|].
  destruct o as [|o]; [cbn; lia|].
  rewrite retreat_SS. destruct (cond (get path (S (S o)))); [|lia].
  assert (1 <= S o) as H' by lia. specialize (IH H'). lia.
Qed.

(** Writing a NUL inside a string cuts it there. *)
Lemma str_set_NUL (path : buf) (k : nat) :
  k <= strlen path -> str (set path k NUL) = firstn k (str path).
Proof.
  intro H.
  assert (L : length (firstn k (str path)) = k).
  { rewrite length_firstn, length_str. lia. }
  apply str_intro.
  - intro HIn. apply (str_no_NUL path).
    rewrite <- (firstn_skipn k (str path)). apply in_or_app. now left.
  - intros i Hi. rewrite L in Hi. rewrite get_set.
    is_false (k =? i).
    rewrite nth_firstn.
    is_true (i <? k).
    rewrite nth_str by lia. reflexivity.
  - rewrite L, get_set, Nat.eqb_refl. reflexivity.
Qed.

(** C8. On an absolute path [pop_component] returns, and leaves a
    string that begins the old one and still starts with its [/]: the
    buffer is never emptied and the root never removed; the path "/" is
    left as it is. *)
Theorem pop_component_keeps_root (path : buf) :
  get path 0 = SLASH ->
  exists (path' : buf) (k : nat),
    pop_component path = Ret path' /\
    1 <= k /\
    str path' = firstn k (str path) /\
    get path' 0 = SLASH /\
    0 < strlen path' /\
    (str path = [SLASH] -> path' = path).
Proof.
  intro H0.
  assert (Hpos : 0 < strlen path).
  { apply strlen_pos_get. rewrite H0. discriminate. }
  unfold pop_component.
  is_true (0 <=? Z.of_nat (strlen path) - 1)%Z.
  cbn [assert bind].
  replace (Z.to_nat (Z.of_nat (strlen path) - 1)) with (strlen path - 1) by lia.
  destruct (strlen path - 1 =? 0) eqn:E.
  - apply Nat.eqb_eq in E. assert (E1 : strlen path = 1) by lia.
    exists path, 1.
    rewrite H0, Ascii.eqb_refl.
    replace (get path 1) with NUL by (rewrite <- E1; symmetry; apply get_strlen).
    cbn [assert bind andb]. repeat split; trivial.
    rewrite firstn_all2; [reflexivity | rewrite length_str; lia].
  - apply Nat.eqb_neq in E.
    set (o1 := retreat is_slash path (strlen path - 1)).
    set (o2 := retreat not_slash path o1).
    assert (B1 : 1 <= o1 <= strlen path - 1) by (apply retreat_bounds; lia).
    assert (B2 : 1 <= o2 <= o1) by (apply retreat_bounds; lia).
    assert (G0 : get (set path o2 NUL) 0 = SLASH).
    { rewrite get_set.
      is_false (o2 =? 0).
      exact H0. }
    exists (set path o2 NUL), o2.
    rewrite G0, Ascii.eqb_refl. cbn [assert bind].
    repeat split; trivial; try lia.
    + apply str_set_NUL. lia.
    + apply strlen_pos_get. rewrite G0. discriminate.
    + intro Hs. exfalso. apply (f_equal (@length ascii)) in Hs.
      rewrite length_str in Hs. cbn in Hs. lia.
Qed.

(** ** The joiner *)

(** [strcat] at or before the end of the string appends to it. *)
Lemma str_strcat_at (dst : buf) (off : nat) (src : buf) :
  off <= strlen dst -> str (strcat_at dst off src) = str dst ++ str src.
Proof.
  intro H. unfold strcat_at. rewrite strlen_at_off by exact H.
  replace (off + (strlen dst - off)) with (strlen dst) by lia.
  apply str_intro.
  - intro HIn. apply in_app_or in HIn. destruct HIn as [HIn|HIn];
      revert HIn; apply str_no_NUL.
  - intros i Hi. rewrite length_app, !length_str in Hi.
    destruct (lt_dec i (strlen dst)) as [L|L].
    + rewrite get_store_out by lia.
      rewrite app_nth1 by (rewrite length_str; lia). now rewrite nth_str by lia.
    + rewrite get_store_in by (rewrite length_app, length_str; cbn; lia).
      rewrite app_nth1 by (rewrite length_str; lia).
      rewrite app_nth2 by (rewrite length_str; lia). now rewrite length_str.
  - rewrite length_app, !length_str.
    rewrite get_store_in by (rewrite length_app, length_str; cbn; lia).
    replace (strlen dst + strlen src - strlen dst) with (length (str src))
      by (rewrite length_str; lia).
    now rewrite nth_middle.
Qed.

Lemma str_lit_slash : str (lit "/") = [SLASH].
Proof. reflexivity. Qed.

Lemma is_slash_hd (p : list ascii) :
  is_slash (hd NUL p) = true -> p = SLASH :: tl p.
Proof.
  destruct p as [|c p]; [discriminate|]. cbn [hd tl]. unfold is_slash.
  intro H. apply Ascii.eqb_eq in H. now subst c.
Qed.

Lemma trim_slash_false (r : list ascii) : ends_with_slash r = false -> trim_slash r = r.
Proof. unfold trim_slash. now intros ->. Qed.

Lemma drop_leading_slash_true (p : list ascii) :
  is_slash (hd NUL p) = true -> drop_leading_slash p = tl p.
Proof. destruct p as [|c p]; [reflexivity|]. cbn [hd drop_leading_slash tl]. now intros ->. Qed.

Lemma drop_leading_slash_false (p : list ascii) :
  is_slash (hd NUL p) = false -> drop_leading_slash p = p.
Proof. destruct p as [|c p]; [reflexivity|]. cbn [hd drop_leading_slash]. now intros ->. Qed.

(** What [junction] does to the two strings: one [/] inserted, one
    elided, or none of the two. *)
Lemma junction_cases (r p : list ascii) :
  r <> [] ->
  junction r p =
  match ends_with_slash r, is_slash (hd NUL p) with
  | false, false => r ++ SLASH :: p
  | true, true => r ++ tl p
  | _, _ => r ++ p
  end.
Proof.
  intro Hr. unfold junction. destruct r as [|c0 r0]; [contradiction|].
  set (r := c0 :: r0) in *.
  destruct (ends_with_slash r) eqn:E, (is_slash (hd NUL p)) eqn:F.
  - rewrite (drop_leading_slash_true p F).
    rewrite (trim_slash_app r E) at 2. now rewrite <- app_assoc.
  - rewrite (drop_leading_slash_false p F).
    rewrite (trim_slash_app r E) at 2. now rewrite <- app_assoc.
  - rewrite (drop_leading_slash_true p F), (trim_slash_false r E).
    rewrite (is_slash_hd p F) at 2. reflexivity.
  - rewrite (drop_leading_slash_false p F), (trim_slash_false r E). reflexivity.
Qed.

Lemma get_0_hd (path : buf) : get path 0 = hd NUL (str path).
Proof. rewrite get_hd_skipn by lia. reflexivity. Qed.

(** One turn of the loop joins the fragment to the string so far, and
    keeps [length] the length of that string. *)
Lemma join_paths_turn_spec (PATH_MAX : nat) (result path : buf) :
  let joined := junction (str result) (str path) in
  if length joined <? PATH_MAX
  then exists result',
       join_paths_turn PATH_MAX result (strlen result) path
       = inr (result', length joined) /\ str result' = joined
  else join_paths_turn PATH_MAX result (strlen result) path
       = inl (- ENAMETOOLONG)%Z.
Proof.
  cbv zeta. unfold join_paths_turn.
  rewrite ends_with_slash_str, get_0_hd. fold (is_slash (hd NUL (str path))).
  destruct (0 <? strlen result) eqn:Z.
  - apply Nat.ltb_lt in Z.
    assert (Hr : str result <> []).
    { intro E. apply (f_equal (@length ascii)) in E. rewrite length_str in E.
      cbn in E. lia. }
    rewrite (junction_cases _ _ Hr).
    destruct (ends_with_slash (str result)) eqn:E,
             (is_slash (hd NUL (str path))) eqn:F; cbn [negb andb Z.eqb].
    + assert (P : 1 <= strlen path).
      { rewrite <- length_str. destruct (str path); [discriminate F | cbn; lia]. }
      replace (Z.to_nat (Z.of_nat (strlen result) + (Z.of_nat (strlen path) + -1)))
        with (length (str result ++ tl (str path))).
      2:{ rewrite length_app, length_tl, !length_str. lia. }
      rewrite Nat.leb_antisym. destruct (_ <? PATH_MAX); cbn [negb]; [|reflexivity].
      eexists. split; [reflexivity|].
      rewrite str_strcat_at by lia. rewrite str_at_off by lia.
      now destruct (str path).
    + replace (Z.to_nat (Z.of_nat (strlen result) + (Z.of_nat (strlen path) + 0)))
        with (length (str result ++ str path)).
      2:{ rewrite length_app, !length_str. lia. }
      rewrite Nat.leb_antisym. destruct (_ <? PATH_MAX); cbn [negb]; [|reflexivity].
      eexists. split; [reflexivity|]. now rewrite str_strcat_at by lia.
    + replace (Z.to_nat (Z.of_nat (strlen result) + (Z.of_nat (strlen path) + 0)))
        with (length (str result ++ str path)).
      2:{ rewrite length_app, !length_str. lia. }
      rewrite Nat.leb_antisym. destruct (_ <? PATH_MAX); cbn [negb]; [|reflexivity].
      eexists. split; [reflexivity|]. now rewrite str_strcat_at by lia.
    + replace (Z.to_nat (Z.of_nat (strlen result) + (Z.of_nat (strlen path) + 1)))
        with (length (str result ++ SLASH :: str path)).
      2:{ rewrite length_app. cbn [length]. rewrite !length_str. lia. }
      rewrite Nat.leb_antisym. destruct (_ <? PATH_MAX); cbn [negb]; [|reflexivity].
      eexists. split; [reflexivity|].
      assert (S1 : str (strcat_at result (strlen result) (lit "/"))
                   = str result ++ [SLASH]).
      { now rewrite str_strcat_at, str_lit_slash by lia. }
      rewrite str_strcat_at.
      * rewrite S1, <- app_assoc. reflexivity.
      * rewrite <- (length_str (strcat_at _ _ _)), S1, length_app, length_str.
        cbn. lia.
  - apply Nat.ltb_ge in Z. assert (Z0 : strlen result = 0) by lia.
    assert (Hr : str result = []).
    { apply length_zero_iff_nil. now rewrite length_str. }
    rewrite Hr, Z0. cbn [andb junction Z.eqb].
    replace (Z.to_nat (Z.of_nat 0 + (Z.of_nat (strlen path) + 0)))
      with (length (str path)) by (rewrite length_str; lia).
    rewrite Nat.leb_antisym. destruct (_ <? PATH_MAX); cbn [negb]; [|reflexivity].
    eexists. split; [reflexivity|].
    rewrite str_strcat_at by lia. now rewrite Hr.
Qed.

Lemma join_paths_loop_spec (PATH_MAX : nat) (paths : list (option buf)) :
  forall result : buf,
  if fits PATH_MAX (fragments paths) (str result)
  then exists result',
       join_paths_loop PATH_MAX paths result (strlen result) = (0%Z, result') /\
       str result' = fold_left junction (fragments paths) (str result)
  else fst (join_paths_loop PATH_MAX paths result (strlen result))
       = (- ENAMETOOLONG)%Z.
Proof.
  induction paths as [|[path|] paths IH]; intro result.
  - cbn. now exists result.
  - cbn [join_paths_loop fragments flat_map app fits fold_left].
    change (flat_map _ paths) with (fragments paths).
    pose proof (join_paths_turn_spec PATH_MAX result path) as T. cbv zeta in T.
    destruct (length (junction (str result) (str path)) <? PATH_MAX);
      cbn [andb].
    + destruct T as (result1 & -> & S1).
      specialize (IH result1). rewrite S1 in IH.
      assert (L : length (junction (str result) (str path)) = strlen result1)
        by (rewrite <- S1; apply length_str).
      rewrite L. exact IH.
    + now rewrite T.
  - cbn [join_paths_loop fragments flat_map app].
    change (flat_map _ paths) with (fragments paths). apply IH.
Qed.

Lemma length_junction_le (r p : list ascii) : length r <= length (junction r p).
Proof.
  unfold junction. destruct r as [|c r]; [cbn; lia|].
  rewrite !length_app, length_trim_slash. cbn [length].
  destruct (ends_with_slash (c :: r)); cbn [length]; lia.
Qed.

Lemma length_fold_junction_le (frags : list (list ascii)) :
  forall joined, length joined <= length (fold_left junction frags joined).
Proof.
  induction frags as [|f frags IH]; intro joined; cbn [fold_left]; [lia|].
  pose proof (length_junction_le joined f). pose proof (IH (junction joined f)). lia.
Qed.

Lemma fits_fold (PATH_MAX : nat) (frags : list (list ascii)) :
  forall joined,
  fits PATH_MAX frags joined = true <->
  (frags = [] \/ length (fold_left junction frags joined) < PATH_MAX).
Proof.
  induction frags as [|f frags IH]; intro joined; cbn [fits fold_left].
  - split; auto.
  - rewrite andb_true_iff, Nat.ltb_lt, IH.
    pose proof (length_fold_junction_le frags (junction joined f)).
    split.
    + intros [H1 [-> | H2]]; right; [exact H1 | exact H2].
    + intros [H1 | H1]; [discriminate|]. split; [lia | now right].
Qed.

Lemma str_set_0_NUL (result : buf) : str (set result 0 NUL) = [].
Proof. now destruct result. Qed.

(** [join_paths] leaves the fragments joined by [junction], and fails
    once the joined string would reach [PATH_MAX] bytes. *)
Lemma join_paths_spec (PATH_MAX : nat) (result : buf) (paths : list (option buf)) :
  if fits PATH_MAX (fragments paths) []
  then exists result',
       join_paths PATH_MAX result paths = (0%Z, result') /\
       str result' = join_spec paths
  else fst (join_paths PATH_MAX result paths) = (- ENAMETOOLONG)%Z.
Proof.
  unfold join_paths, join_spec.
  pose proof (join_paths_loop_spec PATH_MAX paths (set result 0 NUL)) as H.
  rewrite <- (length_str (set result 0 NUL)), str_set_0_NUL in H. exact H.
Qed.

Lemma last_app_nonempty (x y : list ascii) (d : ascii) :
  y <> [] -> last (x ++ y) d = last y d.
Proof.
  intro Hy. induction x as [|c x IH]; [reflexivity|].
  cbn [app]. destruct (x ++ y) eqn:E; [|exact IH].
  apply app_eq_nil in E. now destruct E.
Qed.

Lemma ends_with_slash_app (x y : list ascii) :
  y <> [] -> ends_with_slash (x ++ y) = ends_with_slash y.
Proof. intro Hy. unfold ends_with_slash. now rewrite last_app_nonempty. Qed.

Lemma has_double_slash_app (x y : list ascii) :
  has_double_slash (x ++ y) =
  has_double_slash x || has_double_slash y
  || (ends_with_slash x && is_slash (hd NUL y)).
Proof.
  induction x as [|c x IH].
  - cbn. now rewrite orb_false_r.
  - destruct x as [|c' x].
    + destruct y as [|d y]; cbn [app has_double_slash hd ends_with_slash last].
      * now rewrite andb_false_r.
      * cbn [orb]. apply orb_comm.
    + change (has_double_slash ((c :: c' :: x) ++ y))
        with ((is_slash c && is_slash c') || has_double_slash ((c' :: x) ++ y)).
      rewrite IH.
      change (has_double_slash (c :: c' :: x))
        with ((is_slash c && is_slash c') || has_double_slash (c' :: x)).
      change (ends_with_slash (c :: c' :: x)) with (ends_with_slash (c' :: x)).
      now rewrite !orb_assoc.
Qed.

(** Joining two fragments free of "//" does not make one. *)
Lemma has_double_slash_junction (r p : list ascii) :
  has_double_slash r = false -> has_double_slash p = false ->
  has_double_slash (junction r p) = false.
Proof.
  intros Hr Hp. destruct r as [|c0 r0]; [exact Hp|].
  set (r := c0 :: r0) in *.
  rewrite junction_cases by discriminate.
  destruct (ends_with_slash r) eqn:E, (is_slash (hd NUL p)) eqn:F;
    rewrite has_double_slash_app, Hr, ?Hp, E; cbn [orb andb].
  - rewrite (is_slash_hd p F) in Hp. cbn [tl].
    destruct (tl p) as [|d t]; [reflexivity|].
    cbn [has_double_slash hd] in *. apply orb_false_iff in Hp. destruct Hp as [Hd Ht].
    rewrite Ht. cbn [orb]. exact Hd.
  - exact F.
  - reflexivity.
  - destruct p as [|d t]; [reflexivity|].
    change (has_double_slash (SLASH :: d :: t))
      with ((is_slash SLASH && is_slash d) || has_double_slash (d :: t)).
    cbn [hd] in F. rewrite F, Hp. reflexivity.
Qed.

(** The joined string ends as the second fragment does, when that one
    is not empty. *)
Lemma ends_with_slash_junction (r p : list ascii) :
  p <> [] -> ends_with_slash p = false -> ends_with_slash (junction r p) = false.
Proof.
  intros Hne Hp. destruct r as [|c0 r0]; [exact Hp|].
  set (r := c0 :: r0) in *.
  rewrite junction_cases by discriminate.
  destruct (ends_with_slash r) eqn:E, (is_slash (hd NUL p)) eqn:F.
  - rewrite (is_slash_hd p F) in Hp, Hne. cbn [tl].
    destruct (tl p) as [|d t] eqn:T; [discriminate Hp|].
    rewrite ends_with_slash_app by discriminate. exact Hp.
  - now rewrite ends_with_slash_app.
  - now rewrite ends_with_slash_app.
  - rewrite ends_with_slash_app by discriminate.
    destruct p as [|d t]; [contradiction | exact Hp].
Qed.

(** C3 (amended). Whatever the number of fragments, as long as the
    joined string stays below [PATH_MAX], [join_paths] returns 0 and
    leaves the left fold of [junction] over the fragments that are not
    NULL: at each junction one [/] is inserted when neither side has it,
    one is elided when both have it, and nothing else is changed.  For
    two fragments the result has no "//" when neither fragment has, does
    not end with [/] when the second fragment is not empty and does not,
    and is "/" when both are "/". *)
Theorem join_paths_junction (PATH_MAX : nat) (result : buf) :
  (forall paths : list (option buf),
     length (join_spec paths) < PATH_MAX ->
     exists result',
       join_paths PATH_MAX result paths = (0%Z, result') /\
       str result' = join_spec paths) /\
  (forall a b : buf,
     length (junction (str a) (str b)) < PATH_MAX ->
     exists result',
       join_paths PATH_MAX result [Some a; Some b] = (0%Z, result') /\
       str result' = junction (str a) (str b) /\
       (has_double_slash (str a) = false -> has_double_slash (str b) = false ->
        has_double_slash (str result') = false) /\
       (str b <> [] -> ends_with_slash (str b) = false ->
        ends_with_slash (str result') = false) /\
       (str a = [SLASH] -> str b = [SLASH] -> str result' = [SLASH])).
Proof.
  assert (G : forall paths : list (option buf),
             length (join_spec paths) < PATH_MAX ->
             exists result',
               join_paths PATH_MAX result paths = (0%Z, result') /\
               str result' = join_spec paths).
  { intros paths H. pose proof (join_paths_spec PATH_MAX result paths) as J.
    replace (fits PATH_MAX (fragments paths) []) with true in J; [exact J|].
    symmetry. apply fits_fold. now right. }
  split; [exact G|].
  intros a b H.
  destruct (G [Some a; Some b] H) as (result' & E & Hstr).
  exists result'. change (join_spec [Some a; Some b])
    with (junction (str a) (str b)) in Hstr.
  rewrite Hstr. repeat split; trivial.
  - apply has_double_slash_junction.
  - apply ends_with_slash_junction.
  - intros -> ->. reflexivity.
Qed.

(** ** The detranslator *)

Lemma compare_spec_refl (p : list ascii) :
  compare_spec trim_slash p p = PATHS_ARE_EQUAL.
Proof.
  unfold compare_spec. rewrite Nat.ltb_irrefl, Nat.eqb_refl, Nat.min_id.
  pose proof (sentinel_after_trim p) as Hs. cbv zeta in Hs. rewrite Hs. cbn [andb].
  now destruct (list_eq_dec ascii_dec _ _).
Qed.

(** What the tag [PATH1_IS_PREFIX] tells about the two strings. *)
Lemma compare_spec_prefix (r p : list ascii) :
  compare_spec trim_slash r p = PATH1_IS_PREFIX ->
  let l1 := length (trim_slash r) in
  l1 < length (trim_slash p) /\
  (nth l1 p NUL = SLASH \/ nth l1 p NUL = NUL) /\
  firstn l1 r = firstn l1 p.
Proof.
  unfold compare_spec. cbv zeta.
  set (l1 := length (trim_slash r)). set (l2 := length (trim_slash p)).
  destruct (l1 <? l2) eqn:L.
  - apply Nat.ltb_lt in L. rewrite Nat.min_l by lia.
    is_false (l1 =? l2).
    destruct (is_slash (nth l1 p NUL) || Ascii.eqb (nth l1 p NUL) NUL) eqn:Hs;
      [|discriminate].
    destruct (list_eq_dec ascii_dec _ _) as [F|F]; [|discriminate].
    intros _. repeat split; trivial.
    apply orb_true_iff in Hs. destruct Hs as [Hs|Hs]; apply Ascii.eqb_eq in Hs; auto.
  - destruct (_ && _); [|discriminate]. destruct (l1 =? l2); discriminate.
Qed.

Lemma length_trim_slash_le (s : list ascii) : length (trim_slash s) <= length s.
Proof. rewrite length_trim_slash. destruct (ends_with_slash s); lia. Qed.

Lemma firstn_S_nth (l : list ascii) (n : nat) :
  n < length l -> firstn (S n) l = firstn n l ++ [nth n l NUL].
Proof.
  revert l. induction n as [|n IH]; intros [|c l] H; cbn in H; try lia.
  - reflexivity.
  - cbn [firstn nth app]. f_equal. apply IH. lia.
Qed.

(** A root that [compare_paths] finds to be a prefix of the path begins
    it, byte for byte, unless the root is "/". *)
Lemma prefix_begins (r p : list ascii) :
  ~ In NUL p ->
  compare_spec trim_slash r p = PATH1_IS_PREFIX ->
  length r <= length p /\ (r <> [SLASH] -> firstn (length r) p = r).
Proof.
  intros HN H. apply compare_spec_prefix in H. cbv zeta in H.
  destruct H as (L & St & F).
  pose proof (length_trim_slash_le p) as Lp.
  assert (Hs : nth (length (trim_slash r)) p NUL = SLASH).
  { destruct St as [St|St]; [exact St|]. exfalso. apply HN. rewrite <- St.
    apply nth_In. lia. }
  destruct (ends_with_slash r) eqn:E.
  - pose proof (trim_slash_app r E) as A.
    assert (Lr : length r = S (length (trim_slash r))).
    { rewrite A at 1. rewrite length_app. cbn. lia. }
    split; [lia|]. intros _.
    rewrite Lr, firstn_S_nth, Hs, <- F by lia.
    rewrite A at 3. f_equal.
    rewrite A at 2. apply firstn_app_length.
  - rewrite (trim_slash_false r E) in *. split; [lia|]. intros _.
    rewrite <- F. apply firstn_all.
Qed.

Lemma single_byte_root (r p : list ascii) :
  compare_spec trim_slash r p = PATH1_IS_PREFIX ->
  hd NUL p = SLASH -> length r = 1 -> r = [SLASH].
Proof.
  intros H Hp Lr. destruct r as [|c [|c' r]]; try discriminate Lr.
  destruct (ends_with_slash [c]) eqn:E.
  - unfold ends_with_slash, is_slash in E. cbn in E. apply Ascii.eqb_eq in E.
    now subst c.
  - apply compare_spec_prefix in H. cbv zeta in H.
    rewrite (trim_slash_false [c] E) in H. destruct H as (L & _ & F).
    cbn [length] in *. destruct p as [|d p]; [cbn in L; lia|].
    cbn in F, Hp. congruence.
Qed.

Lemma length_load (b : buf) (n : nat) : length (load b n) = n.
Proof. unfold load. now rewrite length_map, length_seq. Qed.

Lemma nth_load (b : buf) (n i : nat) : i < n -> nth i (load b n) NUL = get b i.
Proof.
  intro H. unfold load.
  rewrite (nth_indep _ NUL (get b 0)) by (now rewrite length_map, length_seq).
  rewrite map_nth. now rewrite seq_nth.
Qed.

(** The removal of the first [k] bytes of the string, as the
    detranslator does it. *)
Lemma str_memmove_set (path : buf) (k : nat) :
  k <= strlen path ->
  let n := strlen path - k in
  str (set (memmove path (at_off path k) n) n NUL) = skipn k (str path).
Proof.
  intros H n.
  assert (L : length (skipn k (str path)) = n).
  { rewrite length_skipn, length_str. reflexivity. }
  apply str_intro.
  - intro HIn. apply (str_no_NUL path).
    rewrite <- (firstn_skipn k (str path)). apply in_or_app. now right.
  - intros i Hi. rewrite L in Hi. rewrite get_set.
    is_false (n =? i).
    unfold memmove. rewrite get_store_in by (rewrite length_load; lia).
    rewrite Nat.sub_0_r, nth_load, get_at_off, nth_skipn by lia.
    unfold n in Hi. now rewrite nth_str by lia.
  - rewrite L, get_set, Nat.eqb_refl. reflexivity.
Qed.

Lemma str_strcpy (dst src : buf) : str (strcpy dst src) = str src.
Proof.
  unfold strcpy. apply str_intro.
  - apply str_no_NUL.
  - intros i Hi. rewrite get_store_in by (rewrite length_app; cbn; lia).
    rewrite Nat.sub_0_r. now rewrite app_nth1.
  - rewrite get_store_in by (rewrite length_app; cbn; lia).
    rewrite Nat.sub_0_r. now rewrite nth_middle.
Qed.

Section DetranslatorProperties.

Variable get_path_binding : Tracee -> Side -> buf -> option buf.
Variable substitute_binding : Tracee -> Side -> buf -> Z * buf.
Variable readlink_proc2 : Tracee -> buf -> buf -> nat * buf.

Local Abbreviation detranslate :=
  (detranslate_path get_path_binding substitute_binding readlink_proc2).

(** C2. A top-level call (no referrer) on an absolute path to which no
    binding applies: when the root is a prefix of the path, the root is
    removed from the front of the path and the length of what is left,
    plus one, is returned -- except that nothing is removed for the root
    "/"; when the path is the root, it becomes "/"; otherwise the call
    fails with -EPERM and leaves the path as it is. *)
Theorem detranslate_path_no_referrer (tracee : Tracee) (path : buf) (status : Z) :
  get path 0 = SLASH ->
  0 < strlen (root tracee) ->
  substitute_binding tracee HOST path = (status, path) ->
  status <> 0%Z -> status <> 1%Z ->
  exists comparison : Comparison,
    compare_paths (root tracee) path = Ret comparison /\
    (str path = str (root tracee) -> comparison = PATHS_ARE_EQUAL) /\
    match comparison with
    | PATH1_IS_PREFIX =>
        exists path',
          detranslate tracee path None
          = Ret ((Z.of_nat (strlen path') + 1)%Z, path') /\
          (str (root tracee) = [SLASH] -> str path' = str path) /\
          (str (root tracee) <> [SLASH] ->
           str path = str (root tracee) ++ str path')
    | PATHS_ARE_EQUAL =>
        exists path',
          detranslate tracee path None = Ret (2%Z, path') /\
          str path' = [SLASH]
    | _ => detranslate tracee path None = Ret ((- EPERM)%Z, path)
    end.
Proof.
  intros H0 Hroot Hsub N0 N1.
  assert (Hpath : 0 < strlen path).
  { apply strlen_pos_get. rewrite H0. discriminate. }
  pose proof (compare_paths_trim (root tracee) path Hroot Hpath) as C.
  exists (compare_spec trim_slash (str (root tracee)) (str path)).
  split; [exact C|]. split.
  { intros ->. apply compare_spec_refl. }
  unfold detranslate_path. rewrite H0, Ascii.eqb_refl. cbn [negb bind].
  rewrite Hsub.
  is_false (status =? 0)%Z.
  is_false (status =? 1)%Z.
  rewrite C. cbn [bind].
  destruct (compare_spec trim_slash (str (root tracee)) (str path)) eqn:T;
    try reflexivity.
  - eexists. split; [reflexivity|]. now rewrite str_strcpy.
  - destruct (prefix_begins _ _ (str_no_NUL path) T) as [Le Beg].
    rewrite (length_str (root tracee)) in Le, Beg. rewrite (length_str path) in Le.
    set (k := if strlen (root tracee) =? 1 then 0 else strlen (root tracee)).
    assert (Hk : k <= strlen path) by (unfold k; destruct (strlen (root tracee) =? 1); lia).
    pose proof (str_memmove_set path k Hk) as M. cbv zeta in M.
    set (path' := set (memmove path (at_off path k) (strlen path - k))
                      (strlen path - k) NUL) in *.
    assert (L' : strlen path' = strlen path - k).
    { rewrite <- length_str, M, length_skipn, length_str. reflexivity. }
    exists path'. rewrite L'. split; [reflexivity|]. split.
    + intro R. rewrite M. unfold k.
      replace (strlen (root tracee)) with 1
        by (rewrite <- length_str, R; reflexivity).
      reflexivity.
    + intro R. rewrite M. unfold k.
      destruct (strlen (root tracee) =? 1) eqn:E1.
      * exfalso. apply R. apply Nat.eqb_eq in E1.
        apply (single_byte_root _ (str path) T).
        -- now rewrite <- get_0_hd.
        -- now rewrite length_str.
      * rewrite <- (Beg R) at 1. symmetry. apply firstn_skipn.
Qed.

(** The part of [detranslate_path] that follows the choice of
    [sanity_check] and [follow_binding] never answers a negative value
    when [sanity_check] is off. *)
Lemma detranslate_path_status (tracee : Tracee) (path : buf) (referrer : buf)
      (returned : Z * buf) :
  detranslate tracee path (Some referrer) = Ret returned ->
  (0 <= fst returned)%Z.
Proof.
  unfold detranslate_path.
  destruct (negb (Ascii.eqb (get path 0) SLASH)).
  { intros [= <-]. cbn. lia. }
  match goal with
  | |- bind ?d ?k = _ -> _ => set (policy := d); set (rest := k)
  end.
  assert (Hrest : forall follow_binding r,
             rest (inr (false, follow_binding)) = Ret r -> (0 <= fst r)%Z).
  { intros follow_binding r. unfold rest.
    destruct follow_binding.
    - destruct (substitute_binding tracee HOST path) as [st p'].
      destruct (st =? 0)%Z; [intros [= <-]; cbn; lia|].
      destruct (st =? 1)%Z; [intros [= <-]; cbn; lia|].
      destruct (compare_paths (root tracee) p') as [[]|]; cbn [bind];
        try discriminate; intros [= <-]; cbn [fst]; lia.
    - destruct (compare_paths (root tracee) path) as [[]|]; cbn [bind];
        try discriminate; intros [= <-]; cbn [fst]; lia. }
  assert (Hpolicy : forall d, policy = Ret d ->
             match d with
             | inl r => (0 <= fst r)%Z
             | inr (sanity_check, _) => sanity_check = false
             end).
  { intro d. unfold policy.
    destruct (compare_paths (lit "/proc") referrer) as [c|]; cbn [bind];
      [|discriminate].
    destruct (Comparison_eqb c PATH1_IS_PREFIX).
    - destruct (readlink_proc2 tracee (strcpy [] path) referrer) as [n pp].
      destruct (negb (n =? 0)); intros [= <-]; cbn [fst]; [lia | reflexivity].
    - destruct (belongs_to_guestfs tracee referrer) as [b|]; cbn [bind];
        [|discriminate].
      destruct (negb b); [|now intros [= <-]].
      destruct (get_path_binding tracee HOST referrer) as [b2|]; cbn [assert bind];
        [|discriminate].
      destruct (get_path_binding tracee HOST path) as [b1|]; [|now intros [= <-]].
      destruct (compare_paths b1 b2); cbn [bind]; [|discriminate].
      now intros [= <-]. }
  destruct policy as [d|]; cbn [bind]; [|discriminate].
  specialize (Hpolicy d eq_refl).
  destruct d as [r|[sanity_check follow_binding]].
  - unfold rest. now intros [= <-].
  - subst sanity_check. apply Hrest.
Qed.

(** C9. With a referrer the sanity check is off: the call never answers
    -EPERM, and a path that no binding holds, that the emulation of
    "/proc" does not rewrite and that is not under the root comes back
    untouched with status 0. *)
Theorem detranslate_path_referrer (tracee : Tracee) (path referrer : buf) :
  (forall p : buf,
     detranslate tracee path (Some referrer) <> Ret ((- EPERM)%Z, p)) /\
  (forall (status : Z) (comparison : Comparison) (returned : Z * buf),
     substitute_binding tracee HOST path = (status, path) ->
     status <> 0%Z -> status <> 1%Z ->
     fst (readlink_proc2 tracee (strcpy [] path) referrer) = 0 ->
     compare_paths (root tracee) path = Ret comparison ->
     comparison <> PATH1_IS_PREFIX -> comparison <> PATHS_ARE_EQUAL ->
     detranslate tracee path (Some referrer) = Ret returned ->
     returned = (0%Z, path)).
Proof.
  split.
  { intros p H. apply detranslate_path_status in H. cbn in H. lia. }
  intros status comparison returned Hsub N0 N1 Hproc Hcmp NP NE.
  unfold detranslate_path.
  destruct (negb (Ascii.eqb (get path 0) SLASH)).
  { now intros [= <-]. }
  match goal with
  | |- bind ?d ?k = _ -> _ => set (policy := d); set (rest := k)
  end.
  assert (Hrest : forall follow_binding r,
             rest (inr (false, follow_binding)) = Ret r -> r = (0%Z, path)).
  { intros follow_binding r. unfold rest. rewrite Hsub.
    is_false (status =? 0)%Z.
    is_false (status =? 1)%Z.
    assert (T : (if follow_binding
                 then @inr (Z * buf) buf path else inr path) = inr path)
      by now destruct follow_binding.
    rewrite T, Hcmp. cbn [bind].
    destruct comparison; try contradiction; now intros [= <-]. }
  assert (Hpolicy : forall d, policy = Ret d ->
             exists follow_binding, d = inr (false, follow_binding)).
  { intro d. unfold policy.
    destruct (compare_paths (lit "/proc") referrer) as [c|]; cbn [bind];
      [|discriminate].
    destruct (Comparison_eqb c PATH1_IS_PREFIX).
    - destruct (readlink_proc2 tracee (strcpy [] path) referrer) as [n pp].
      cbn [fst] in Hproc. subst n. cbn [Nat.eqb negb].
      intros [= <-]. now exists true.
    - destruct (belongs_to_guestfs tracee referrer) as [b|]; cbn [bind];
        [|discriminate].
      destruct (negb b); [|intros [= <-]; now exists false].
      destruct (get_path_binding tracee HOST referrer) as [b2|]; cbn [assert bind];
        [|discriminate].
      destruct (get_path_binding tracee HOST path) as [b1|];
        [|intros [= <-]; now exists false].
      destruct (compare_paths b1 b2) as [c'|]; cbn [bind]; [|discriminate].
      intros [= <-]. now eexists. }
  destruct policy as [d|]; cbn [bind]; [|discriminate].
  destruct (Hpolicy d eq_refl) as [follow_binding ->]. apply Hrest.
Qed.

End DetranslatorProperties.

(** ** The translator *)

(** C4. The status of stat(2) is never looked at.  Whatever the host
    and the collaborators, a call in which stat(2) fails goes on as if
    stat(2) had succeeded and filled in what the memory of [statl]
    happened to hold.  So, for a descriptor open on a directory removed
    since, with stale memory that reads as a directory mode the call
    succeeds, where -ENOTDIR was due; the same call answers -ENOTDIR
    when the stale memory reads as 0. *)
Theorem translate_path_failed_stat :
  (forall (PATH_MAX : nat)
          (get_path_binding : Tracee -> Side -> buf -> option buf)
          (substitute_binding : Tracee -> Side -> buf -> Z * buf)
          (readlink_proc2 : Tracee -> buf -> buf -> nat * buf)
          (getpid : Z)
          (sys_readlink : list ascii -> option (list ascii))
          (sys_stat : list ascii -> option Z)
          (notify_extensions : Tracee -> buf -> buf -> Z * buf)
          (canonicalize : Tracee -> buf -> bool -> buf -> nat -> Z * buf)
          (statl : Z) (tracee : Tracee) (result : buf) (dir_fd : Z)
          (fake_path : buf) (deref_final : bool),
     translate_path PATH_MAX get_path_binding substitute_binding readlink_proc2
       getpid sys_readlink sys_stat notify_extensions canonicalize
       statl tracee result dir_fd fake_path deref_final
     =
     translate_path PATH_MAX get_path_binding substitute_binding readlink_proc2
       getpid sys_readlink
       (fun path => Some match sys_stat path with
                         | Some st_mode => st_mode
                         | None => statl
                         end)
       notify_extensions canonicalize
       statl tracee result dir_fd fake_path deref_final) /\
  Jail.sys_stat (lit "/jail/gone (deleted)") = None /\
  (exists result,
     translate_path Jail.PATH_MAX Jail.get_path_binding Jail.substitute_binding
       Jail.readlink_proc2 Jail.getpid Jail.sys_readlink Jail.sys_stat
       Jail.notify_extensions Jail.canonicalize
       S_IFDIR Jail.tracee [] 3 (lit "x") true
     = Ret (0%Z, result) /\
     str result = lit "/jail/gone (deleted)/x") /\
  (exists result,
     translate_path Jail.PATH_MAX Jail.get_path_binding Jail.substitute_binding
       Jail.readlink_proc2 Jail.getpid Jail.sys_readlink Jail.sys_stat
       Jail.notify_extensions Jail.canonicalize
       0 Jail.tracee [] 3 (lit "x") true
     = Ret ((- ENOTDIR)%Z, result)).
Proof.
  split; [intros; reflexivity|].
  split; [reflexivity|].
  split; eexists; [split|]; vm_compute; reflexivity.
Qed.

(** ** Open file descriptors *)

Section DescriptorsProperties.

Variable PATH_MAX : nat.
Variable HAVE_READLINKAT : bool.
Variable sys_opendir : list ascii -> option (list buf).
Variable sys_readlink : list ascii -> option (list ascii).

(** The loop of [foreach_fd] calls back on the entries to visit, in
    order, and stops at the first negative status. *)
Lemma foreach_fd_loop_first_negative (State : Type)
      (callback : foreach_fd_t State) (pid : Z) (proc_fd : buf)
      (entries : list buf) :
  forall (path : buf) (s : State),
  foreach_fd_loop PATH_MAX HAVE_READLINKAT sys_readlink State
                  callback pid proc_fd entries path s
  = first_negative callback pid
      (visited PATH_MAX HAVE_READLINKAT sys_readlink proc_fd entries path) s.
Proof.
  induction entries as [|d_name entries IH]; intros path s; [reflexivity|].
  cbn [foreach_fd_loop visited].
  destruct (negb HAVE_READLINKAT && (PATH_MAX <=? strlen proc_fd + strlen d_name + 1));
    [apply IH|].
  unfold readlink.
  destruct (sys_readlink (str proc_fd ++ lit "/" ++ str d_name)) as [target|];
    [|apply IH].
  assert (Neg : (Z.of_nat (Nat.min (length target) PATH_MAX) <? 0)%Z = false)
    by (apply Z.ltb_ge; lia).
  rewrite Neg. cbn [orb].
  destruct (PATH_MAX <=? length target) eqn:Long.
  - apply Nat.leb_le in Long.
    is_true (Z.of_nat PATH_MAX <=? Z.of_nat (Nat.min (length target) PATH_MAX))%Z.
    apply IH.
  - apply Nat.leb_gt in Long.
    is_false (Z.of_nat PATH_MAX <=? Z.of_nat (Nat.min (length target) PATH_MAX))%Z.
    rewrite Nat2Z.id, Nat.min_l by lia.
    destruct (Ascii.eqb _ SLASH); cbn [negb first_negative]; [|apply IH].
    destruct (callback pid (atoi d_name) _ s) as [status s'].
    destruct (status <? 0)%Z; [reflexivity | apply IH].
Qed.

Lemma first_negative_list_open_fd (pid : Z) (calls : list (Z * buf)) :
  forall log, fst (first_negative list_open_fd_callback pid calls log) = 0%Z.
Proof.
  induction calls as [|[fd path] calls IH]; intro log; [reflexivity|].
  cbn [first_negative list_open_fd_callback Z.ltb Z.compare]. apply IH.
Qed.

(** C7. [list_open_fd] answers 0, whatever the pid and whatever opendir
    and readlink do.  [foreach_fd] answers 0 when the directory cannot be
    opened; otherwise it runs the callback over the entries to visit, from
    which an entry whose link cannot be read is left out, and answers the
    first negative status of the callback, or 0. *)
Theorem list_open_fd_returns_0 :
  (forall (pid : Z) (log : list notice),
     fst (list_open_fd PATH_MAX HAVE_READLINKAT sys_opendir sys_readlink pid log)
     = 0%Z) /\
  (forall (pid fd : Z) (path : buf) (log : list notice),
     fst (list_open_fd_callback pid fd path log) = 0%Z) /\
  (forall (State : Type) (callback : foreach_fd_t State) (pid : Z) (s : State),
     foreach_fd PATH_MAX HAVE_READLINKAT sys_opendir sys_readlink State
                pid callback s
     = let proc_fd := lit "/proc/" ++ decimal pid ++ lit "/fd" in
       if 32 <=? length proc_fd then (0%Z, s) else
       match sys_opendir proc_fd with
       | None => (0%Z, s)
       | Some entries =>
           first_negative callback pid
             (visited PATH_MAX HAVE_READLINKAT sys_readlink proc_fd entries []) s
       end) /\
  (forall (proc_fd d_name : buf) (entries : list buf) (path : buf),
     sys_readlink (str proc_fd ++ lit "/" ++ str d_name) = None ->
     visited PATH_MAX HAVE_READLINKAT sys_readlink proc_fd (d_name :: entries) path
     = visited PATH_MAX HAVE_READLINKAT sys_readlink proc_fd entries path).
Proof.
  assert (F : forall (State : Type) (callback : foreach_fd_t State) (pid : Z)
                     (s : State),
             foreach_fd PATH_MAX HAVE_READLINKAT sys_opendir sys_readlink State
                        pid callback s
             = let proc_fd := lit "/proc/" ++ decimal pid ++ lit "/fd" in
               if 32 <=? length proc_fd then (0%Z, s) else
               match sys_opendir proc_fd with
               | None => (0%Z, s)
               | Some entries =>
                   first_negative callback pid
                     (visited PATH_MAX HAVE_READLINKAT sys_readlink proc_fd
                              entries []) s
               end).
  { intros State callback pid s. unfold foreach_fd. cbv zeta.
    set (text := lit "/proc/" ++ decimal pid ++ lit "/fd").
    is_false (Z.of_nat (length text) <? 0)%Z.
    cbn [orb].
    destruct (32 <=? length text) eqn:Long.
    - apply Nat.leb_le in Long.
      is_true (32 <=? Z.of_nat (length text))%Z.
      reflexivity.
    - apply Nat.leb_gt in Long.
      is_false (32 <=? Z.of_nat (length text))%Z.
      rewrite firstn_all2 by lia.
      destruct (sys_opendir text); [|reflexivity].
      apply foreach_fd_loop_first_negative. }
  split; [|split; [reflexivity|split]].
  - intros pid log. unfold list_open_fd. rewrite F. cbv zeta.
    destruct (32 <=? _); [reflexivity|].
    destruct (sys_opendir _); [|reflexivity].
    apply first_negative_list_open_fd.
  - exact F.
  - intros proc_fd d_name entries path H. cbn [visited]. rewrite H.
    now destruct (negb HAVE_READLINKAT && _).
Qed.

End DescriptorsProperties.

(** * The properties on the host of the examples *)

(** C1: the comparison of "/jail" with "/jail/home". *)
Lemma compare_paths_spec_witness :
  0 < strlen (lit "/jail") /\ 0 < strlen (lit "/jail/home") /\
  compare_paths (lit "/jail") (lit "/jail/home")
  = Ret (compare_spec trim_slash (str (lit "/jail")) (str (lit "/jail/home"))).
Proof.
  assert (H1 : 0 < strlen (lit "/jail")) by (cbn; lia).
  assert (H2 : 0 < strlen (lit "/jail/home")) by (cbn; lia).
  split; [exact H1|]. split; [exact H2|].
  exact (proj1 (compare_paths_spec (lit "/jail") (lit "/jail/home") H1 H2)).
Defined.

(** C1, as first stated: with the sole [/] of "/" kept, "/" and "/foo"
    would not be comparable; the code trims it and finds a prefix. *)
Lemma compare_paths_sole_slash :
  0 < strlen (lit "/") /\ 0 < strlen (lit "/foo") /\
  compare_paths (lit "/") (lit "/foo") = Ret PATH1_IS_PREFIX /\
  compare_spec trim_slash_unless_sole (str (lit "/")) (str (lit "/foo"))
  = PATHS_ARE_NOT_COMPARABLE /\
  compare_paths (lit "/") (lit "/foo")
  <> Ret (compare_spec trim_slash_unless_sole (str (lit "/")) (str (lit "/foo"))).
Proof.
  split; [cbn; lia|]. split; [cbn; lia|].
  split; [reflexivity|]. split; [reflexivity|]. discriminate.
Qed.

(** C2: the top-level detranslation of "/jail/home/u". *)
Lemma detranslate_path_no_referrer_witness :
  exists comparison : Comparison,
    compare_paths (root Jail.tracee) (lit "/jail/home/u") = Ret comparison /\
    (str (lit "/jail/home/u") = str (root Jail.tracee) ->
     comparison = PATHS_ARE_EQUAL) /\
    match comparison with
    | PATH1_IS_PREFIX =>
        exists path',
          detranslate_path Jail.get_path_binding Jail.substitute_binding
            Jail.readlink_proc2 Jail.tracee (lit "/jail/home/u") None
          = Ret ((Z.of_nat (strlen path') + 1)%Z, path') /\
          (str (root Jail.tracee) = [SLASH] -> str path' = str (lit "/jail/home/u")) /\
          (str (root Jail.tracee) <> [SLASH] ->
           str (lit "/jail/home/u") = str (root Jail.tracee) ++ str path')
    | PATHS_ARE_EQUAL =>
        exists path',
          detranslate_path Jail.get_path_binding Jail.substitute_binding
            Jail.readlink_proc2 Jail.tracee (lit "/jail/home/u") None
          = Ret (2%Z, path') /\
          str path' = [SLASH]
    | _ =>
        detranslate_path Jail.get_path_binding Jail.substitute_binding
          Jail.readlink_proc2 Jail.tracee (lit "/jail/home/u") None
        = Ret ((- EPERM)%Z, lit "/jail/home/u")
    end.
Proof.
  apply (detranslate_path_no_referrer Jail.get_path_binding
           Jail.substitute_binding Jail.readlink_proc2
           Jail.tracee (lit "/jail/home/u") (- ENOENT)%Z).
  - reflexivity.
  - cbn; lia.
  - reflexivity.
  - discriminate.
  - discriminate.
Defined.

(** C3: "/usr/" joined to "/bin". *)
Lemma join_paths_junction_witness :
  length (junction (str (lit "/usr/")) (str (lit "/bin"))) < Jail.PATH_MAX /\
  exists result',
    join_paths Jail.PATH_MAX [] [Some (lit "/usr/"); Some (lit "/bin")]
    = (0%Z, result') /\
    str result' = junction (str (lit "/usr/")) (str (lit "/bin")).
Proof.
  assert (H : length (junction (str (lit "/usr/")) (str (lit "/bin")))
              < Jail.PATH_MAX) by (apply Nat.ltb_lt; reflexivity).
  split; [exact H|].
  destruct (proj2 (join_paths_junction Jail.PATH_MAX [])
                  (lit "/usr/") (lit "/bin") H) as (result' & E & Hstr & _).
  exists result'. split; [exact E | exact Hstr].
Defined.

(** C3, as first stated: "a//b" joined to "c/" keeps its "//" and ends
    with [/], though neither fragment is "/". *)
Lemma join_paths_keeps_slashes :
  strlen (lit "a//b") + strlen (lit "c/") < Jail.PATH_MAX /\
  fst (join_paths Jail.PATH_MAX [] [Some (lit "a//b"); Some (lit "c/")]) = 0%Z /\
  str (snd (join_paths Jail.PATH_MAX [] [Some (lit "a//b"); Some (lit "c/")]))
  = lit "a//b/c/" /\
  has_double_slash (lit "a//b/c/") = true /\
  ends_with_slash (lit "a//b/c/") = true /\
  ~ (str (lit "a//b") = lit "/" /\ str (lit "c/") = lit "/").
Proof.
  split; [apply Nat.ltb_lt; reflexivity|].
  repeat (split; [reflexivity|]).
  intros [H _]. discriminate H.
Qed.

(** C5: the first component of "/usr//bin/". *)
Lemma next_component_finality_witness :
  0 <= strlen (lit "/usr//bin/") /\
  lex_spec (skipn 0 (str (lit "/usr//bin/")))
  = (lit "/", lit "usr", lit "//", lit "bin/") /\
  lx_result (next_component Jail.NAME_MAX [] (lit "/usr//bin/") 0) = inr NOT_FINAL.
Proof.
  assert (H : 0 <= strlen (lit "/usr//bin/")) by lia.
  assert (L : lex_spec (skipn 0 (str (lit "/usr//bin/")))
              = (lit "/", lit "usr", lit "//", lit "bin/")) by reflexivity.
  split; [exact H|]. split; [exact L|].
  destruct (next_component_finality Jail.NAME_MAX [] (lit "/usr//bin/") 0
              _ _ _ _ H L) as [_ F].
  assert (B : length (lit "usr") < Jail.NAME_MAX) by (apply Nat.ltb_lt; reflexivity).
  destruct (F B) as (_ & _ & N & _). apply N. discriminate.
Defined.

(** C7: the descriptors of the tracee; the link of "." cannot be read. *)
Lemma list_open_fd_returns_0_witness :
  Jail.sys_readlink (str (lit "/proc/42/fd") ++ lit "/" ++ str (lit ".")) = None /\
  visited Jail.PATH_MAX true Jail.sys_readlink (lit "/proc/42/fd")
          [lit "."; lit "3"] []
  = visited Jail.PATH_MAX true Jail.sys_readlink (lit "/proc/42/fd") [lit "3"] [].
Proof.
  assert (H : Jail.sys_readlink (str (lit "/proc/42/fd") ++ lit "/" ++ str (lit "."))
              = None) by reflexivity.
  split; [exact H|].
  destruct (list_open_fd_returns_0 Jail.PATH_MAX true Jail.sys_opendir
              Jail.sys_readlink) as (_ & _ & _ & V).
  exact (V (lit "/proc/42/fd") (lit ".") [lit "3"] [] H).
Defined.

(** C8: "/usr/bin" popped. *)
Lemma pop_component_keeps_root_witness :
  get (lit "/usr/bin") 0 = SLASH /\
  exists (path' : buf) (k : nat),
    pop_component (lit "/usr/bin") = Ret path' /\
    1 <= k /\
    str path' = firstn k (str (lit "/usr/bin")) /\
    get path' 0 = SLASH /\
    0 < strlen path' /\
    (str (lit "/usr/bin") = [SLASH] -> path' = lit "/usr/bin").
Proof.
  split; [reflexivity|].
  apply (pop_component_keeps_root (lit "/usr/bin")). reflexivity.
Defined.

(** C9: the target "/etc/passwd" of the link "/jail/lnk". *)
Lemma detranslate_path_referrer_witness :
  Jail.substitute_binding Jail.tracee HOST (lit "/etc/passwd")
  = ((- ENOENT)%Z, lit "/etc/passwd") /\
  fst (Jail.readlink_proc2 Jail.tracee (strcpy [] (lit "/etc/passwd"))
                           (lit "/jail/lnk")) = 0 /\
  compare_paths (root Jail.tracee) (lit "/etc/passwd")
  = Ret PATHS_ARE_NOT_COMPARABLE /\
  exists returned,
    detranslate_path Jail.get_path_binding Jail.substitute_binding
      Jail.readlink_proc2 Jail.tracee (lit "/etc/passwd") (Some (lit "/jail/lnk"))
    = Ret returned /\
    returned = (0%Z, lit "/etc/passwd").
Proof.
  split; [reflexivity|]. split; [reflexivity|]. split; [reflexivity|].
  eexists. split; [reflexivity|].
  apply (proj2 (detranslate_path_referrer Jail.get_path_binding
                  Jail.substitute_binding Jail.readlink_proc2
                  Jail.tracee (lit "/etc/passwd") (lit "/jail/lnk"))
               (- ENOENT)%Z PATHS_ARE_NOT_COMPARABLE).
  - reflexivity.
  - discriminate.
  - discriminate.
  - reflexivity.
  - reflexivity.
  - discriminate.
  - discriminate.
  - reflexivity.
Defined.

(** C10: the input "//". *)
Lemma next_component_only_slashes_witness :
  0 < Jail.NAME_MAX /\ 0 <= strlen (lit "//") /\
  Forall (fun c => c = SLASH) (skipn 0 (str (lit "//"))) /\
  lx_result (next_component Jail.NAME_MAX [] (lit "//") 0) = inr FINAL_NORMAL /\
  str (lx_component (next_component Jail.NAME_MAX [] (lit "//") 0)) = [] /\
  lx_cursor (next_component Jail.NAME_MAX [] (lit "//") 0) = strlen (lit "//").
Proof.
  assert (H1 : 0 < Jail.NAME_MAX) by (apply Nat.ltb_lt; reflexivity).
  assert (H2 : 0 <= strlen (lit "//")) by lia.
  assert (H3 : Forall (fun c => c = SLASH) (skipn 0 (str (lit "//"))))
    by (repeat constructor).
  split; [exact H1|]. split; [exact H2|]. split; [exact H3|].
  exact (next_component_only_slashes Jail.NAME_MAX [] (lit "//") 0 H1 H2 H3).
Defined.

(** * Further properties *)

(** ** The lexer *)

(** The parts [lex_spec] cuts the input into. *)
Lemma lex_spec_parts (s leading comp trailing remains : list ascii) :
  lex_spec s = (leading, comp, trailing, remains) ->
  s = leading ++ comp ++ trailing ++ remains /\
  Forall (fun c => not_slash c = true) comp /\
  match remains with c :: _ => is_slash c = false | [] => True end /\
  (comp = [] -> trailing = []) /\
  (trailing = [] -> remains = []).
Proof.
  unfold lex_spec. intro H.
  pose proof (span_app is_slash s) as A1.
  pose proof (span_stops is_slash s) as T1.
  destruct (span is_slash s) as [l1 r1]. cbn [fst snd] in A1, T1.
  pose proof (span_app not_slash r1) as A2.
  pose proof (span_stops not_slash r1) as T2.
  pose proof (span_taken not_slash r1) as K2.
  destruct (span not_slash r1) as [l2 r2] eqn:S2. cbn [fst snd] in A2, T2, K2.
  pose proof (span_app is_slash r2) as A3.
  pose proof (span_stops is_slash r2) as T3.
  destruct (span is_slash r2) as [l3 r3] eqn:S3. cbn [fst snd] in A3, T3.
  injection H as <- <- <- <-.
  split; [now rewrite A3, A2, A1|]. split; [exact K2|]. split; [exact T3|].
  split.
  - intros ->. cbn [app] in A2. subst r2.
    destruct r1 as [|c r1']; [now inversion S3|].
    unfold not_slash, is_slash in *. rewrite T1 in T2. discriminate T2.
  - intros ->. cbn [app] in A3. subst r3.
    destruct r2 as [|c r2']; [reflexivity|].
    unfold not_slash, is_slash in *. rewrite T3 in T2. discriminate T2.
Qed.

Lemma not_slash_no_SLASH (l : list ascii) :
  Forall (fun c => not_slash c = true) l -> ~ In SLASH l.
Proof.
  intros H HIn. rewrite Forall_forall in H. specialize (H _ HIn).
  discriminate H.
Qed.

(** X1. The cursor only moves forward and never leaves the string; a
    component that is extracted holds no [/] and has fewer than
    [NAME_MAX] bytes. *)
Theorem next_component_cursor (NAME_MAX : nat) (component path : buf)
        (cursor : nat) :
  cursor <= strlen path ->
  let r := next_component NAME_MAX component path cursor in
  cursor <= lx_cursor r <= strlen path /\
  (forall finality : Finality,
     lx_result r = inr finality ->
     ~ In SLASH (str (lx_component r)) /\
     strlen (lx_component r) < NAME_MAX).
Proof.
  intros Hc r.
  destruct (lex_spec (skipn cursor (str path))) as [[[l c] t] m] eqn:Hlex.
  pose proof (next_component_lex NAME_MAX component path cursor _ _ _ _ Hc Hlex) as H.
  fold r in H.
  destruct (lex_spec_parts _ _ _ _ _ Hlex) as (Happ & Hcomp & _).
  assert (L : length l + length c + length t + length m = strlen path - cursor).
  { rewrite <- (length_str path) at 1.
    rewrite <- (length_skipn cursor (str path)), Happ, !length_app. lia. }
  destruct (NAME_MAX <=? length c) eqn:E.
  - rewrite H. cbn [lx_cursor lx_result]. split; [lia|]. discriminate.
  - apply Nat.leb_gt in E. destruct H as (component' & Hstr & ->).
    cbn [lx_cursor lx_result lx_component]. split; [lia|].
    intros _ _. rewrite <- length_str, Hstr. split; [|exact E].
    now apply not_slash_no_SLASH.
Qed.

(** X2. After [NOT_FINAL] the component is not empty and the cursor is
    on the first byte of the next one, neither [/] nor NUL; after
    [FINAL_NORMAL] and [FINAL_SLASH] the cursor is on the NUL that ends
    the path. *)
Theorem next_component_next (NAME_MAX : nat) (component path : buf)
        (cursor : nat) :
  cursor <= strlen path ->
  let r := next_component NAME_MAX component path cursor in
  (lx_result r = inr NOT_FINAL ->
   str (lx_component r) <> [] /\
   get path (lx_cursor r) <> SLASH /\
   get path (lx_cursor r) <> NUL) /\
  (lx_result r = inr FINAL_NORMAL \/ lx_result r = inr FINAL_SLASH ->
   lx_cursor r = strlen path).
Proof.
  intros Hc r.
  destruct (lex_spec (skipn cursor (str path))) as [[[l c] t] m] eqn:Hlex.
  pose proof (next_component_lex NAME_MAX component path cursor _ _ _ _ Hc Hlex) as H.
  fold r in H.
  destruct (lex_spec_parts _ _ _ _ _ Hlex) as (Happ & _ & Hm & Hct & Htm).
  assert (L : length l + length c + length t + length m = strlen path - cursor).
  { rewrite <- (length_str path) at 1.
    rewrite <- (length_skipn cursor (str path)), Happ, !length_app. lia. }
  destruct (NAME_MAX <=? length c) eqn:E.
  - rewrite H. cbn [lx_result]. split; [discriminate|]. intros [F|F]; discriminate F.
  - destruct H as (component' & Hstr & ->).
    cbn [lx_cursor lx_result lx_component]. split.
    + intro F. destruct m as [|x m'].
      { destruct t; discriminate F. }
      assert (Hk : cursor + length l + length c + length t <= strlen path)
        by (cbn [length] in L; lia).
      assert (G : get path (cursor + length l + length c + length t) = x).
      { rewrite get_hd_skipn by exact Hk.
        replace (cursor + length l + length c + length t)
          with (cursor + length (l ++ c ++ t)) by (rewrite !length_app; lia).
        rewrite <- skipn_skipn_add, Happ.
        replace (l ++ c ++ t ++ x :: m') with ((l ++ c ++ t) ++ x :: m')
          by (now rewrite <- !app_assoc).
        now rewrite skipn_app_length. }
      rewrite G, Hstr. repeat split.
      * intros ->. specialize (Hct eq_refl). subst t.
        specialize (Htm eq_refl). discriminate Htm.
      * intros ->. discriminate Hm.
      * intros ->. apply (str_no_NUL path).
        rewrite <- (firstn_skipn cursor (str path)), Happ.
        apply in_or_app. right. apply in_or_app. right. apply in_or_app. right.
        apply in_or_app. right. now left.
    + intro F. destruct m as [|x m'].
      * cbn [length] in L. lia.
      * exfalso. destruct F as [F|F]; destruct t; discriminate F.
Qed.

(** X3. When the component is too long nothing is written: the
    component buffer is as it was, and the cursor is left at the end of
    the component, on a [/] or on the NUL. *)
Theorem next_component_too_long (NAME_MAX : nat) (component path : buf)
        (cursor : nat) (error : Z) :
  cursor <= strlen path ->
  let r := next_component NAME_MAX component path cursor in
  lx_result r = inl error ->
  error = (- ENAMETOOLONG)%Z /\
  lx_component r = component /\
  (get path (lx_cursor r) = SLASH \/ get path (lx_cursor r) = NUL).
Proof.
  intros Hc r.
  destruct (lex_spec (skipn cursor (str path))) as [[[l c] t] m] eqn:Hlex.
  pose proof (next_component_lex NAME_MAX component path cursor _ _ _ _ Hc Hlex) as H.
  fold r in H.
  assert (Hlex' := Hlex). unfold lex_spec in Hlex'.
  pose proof (span_app is_slash (skipn cursor (str path))) as A1.
  destruct (span is_slash (skipn cursor (str path))) as [l1 r1].
  cbn [fst snd] in A1.
  pose proof (span_app not_slash r1) as A2.
  pose proof (span_stops not_slash r1) as T2.
  destruct (span not_slash r1) as [l2 r2]. cbn [fst snd] in A2, T2.
  destruct (span is_slash r2) as [l3 r3].
  injection Hlex' as -> -> _ _.
  destruct (NAME_MAX <=? length c) eqn:E.
  - rewrite H. cbn [lx_result lx_component lx_cursor]. intros [= <-].
    split; [reflexivity|]. split; [reflexivity|].
    assert (Ls : length l + length c + length r2 = strlen path - cursor).
    { rewrite <- (length_str path) at 1.
      rewrite <- (length_skipn cursor (str path)), <- A1, <- A2, !length_app. lia. }
    rewrite get_hd_skipn by lia.
    replace (cursor + length l + length c) with (cursor + length (l ++ c))
      by (rewrite length_app; lia).
    rewrite <- skipn_skipn_add, <- A1, <- A2, app_assoc, skipn_app_length.
    destruct r2 as [|x r2']; [now right|]. left. cbn [hd].
    unfold not_slash in T2. apply negb_false_iff in T2. now apply Ascii.eqb_eq in T2.
  - destruct H as (component' & _ & ->). discriminate.
Qed.

(** ** [pop_component] *)

(** Where a loop of [pop_component] stops: at the first offset, going
    down, that fails the test, or at 1. *)
Lemma retreat_stop (cond : ascii -> bool) (path : buf) (lo hi : nat) :
  1 <= lo <= hi ->
  (forall i, lo < i <= hi -> cond (get path i) = true) ->
  lo = 1 \/ cond (get path lo) = false ->
  retreat cond path hi = lo.
Proof.
  intros [H1 H2] Hrun Hstop.
  induction hi as [|hi IH]; [lia|].
  destruct (Nat.eq_dec lo (S hi)) as [->|N].
  - destruct hi as [|hi]; [reflexivity|]. rewrite retreat_SS.
    destruct Hstop as [Hs|Hs]; [discriminate Hs | now rewrite Hs].
  - destruct hi as [|hi]; [lia|]. rewrite retreat_SS.
    rewrite Hrun by lia. apply IH; [lia|]. intros i Hi. apply Hrun. lia.
Qed.

Lemma get_str_app (path : buf) (s1 s2 : list ascii) (i : nat) :
  str path = s1 ++ s2 -> i < length s2 ->
  get path (length s1 + i) = nth i s2 NUL.
Proof.
  intros H Hi.
  assert (L : length s1 + i <= strlen path).
  { rewrite <- length_str, H, length_app. lia. }
  rewrite <- nth_str by exact L. rewrite H, app_nth2 by lia.
  f_equal. lia.
Qed.

Lemma Forall_nth_true (p : ascii -> bool) (l : list ascii) (i : nat) :
  Forall (fun c => p c = true) l -> i < length l -> p (nth i l NUL) = true.
Proof.
  intros H Hi. rewrite Forall_forall in H. apply H. now apply nth_In.
Qed.

(** What [pop_component] leaves of a path cut into directory,
    separator, last component and trailing separators. *)
Lemma pop_component_split (path : buf) (dir comp trailing : list ascii) :
  str path = dir ++ SLASH :: comp ++ trailing ->
  get path 0 = SLASH ->
  comp <> [] ->
  Forall (fun c => not_slash c = true) comp ->
  Forall (fun c => is_slash c = true) trailing ->
  exists path',
    pop_component path = Ret path' /\
    str path' = match dir with [] => [SLASH] | _ => dir end.
Proof.
  intros Hp H0 Hne Hcomp Htrail.
  set (n := length dir + 1 + length comp).
  assert (Hlen : strlen path = n + length trailing).
  { rewrite <- length_str, Hp, length_app. cbn [length]. rewrite length_app.
    unfold n. lia. }
  assert (Cpos : 0 < length comp) by (destruct comp; [contradiction | cbn; lia]).
  assert (Gtrail : forall i, n <= i < n + length trailing ->
                             is_slash (get path i) = true).
  { intros i Hi.
    replace i with (length (dir ++ SLASH :: comp) + (i - n))
      by (rewrite length_app; cbn [length]; unfold n; lia).
    rewrite (get_str_app path (dir ++ SLASH :: comp) trailing).
    - apply Forall_nth_true; [exact Htrail | lia].
    - now rewrite <- app_assoc.
    - lia. }
  assert (Gcomp : forall i, length dir < i < n -> not_slash (get path i) = true).
  { intros i Hi.
    replace i with (length (dir ++ [SLASH]) + (i - length dir - 1))
      by (rewrite length_app; cbn [length]; lia).
    rewrite (get_str_app path (dir ++ [SLASH]) (comp ++ trailing)).
    - rewrite app_nth1 by (unfold n in Hi; lia).
      apply Forall_nth_true; [exact Hcomp | unfold n in Hi; lia].
    - now rewrite <- app_assoc.
    - rewrite length_app. unfold n in Hi. lia. }
  assert (Gsep : get path (length dir) = SLASH).
  { rewrite <- (Nat.add_0_r (length dir)).
    rewrite (get_str_app path dir (SLASH :: comp ++ trailing) 0 Hp); [reflexivity|].
    cbn [length]. lia. }
  unfold pop_component.
  is_true (0 <=? Z.of_nat (strlen path) - 1)%Z. cbn [assert bind].
  replace (Z.to_nat (Z.of_nat (strlen path) - 1)) with (strlen path - 1) by lia.
  is_false (strlen path - 1 =? 0).
  assert (R1 : retreat is_slash path (strlen path - 1) = n - 1).
  { apply retreat_stop.
    - unfold n. lia.
    - intros i Hi. apply Gtrail. lia.
    - destruct (Nat.eq_dec (n - 1) 1) as [E|E]; [now left | right].
      specialize (Gcomp (n - 1)). unfold not_slash in Gcomp.
      unfold is_slash. apply negb_true_iff. apply Gcomp. unfold n in *. lia. }
  rewrite R1.
  set (k := match dir with [] => 1 | _ => length dir end).
  assert (Hk : 1 <= k <= n - 1).
  { unfold k, n. destruct dir; cbn [length]; lia. }
  assert (R2 : retreat not_slash path (n - 1) = k).
  { apply retreat_stop.
    - exact Hk.
    - intros i Hi. apply Gcomp. unfold k in Hi. destruct dir; cbn [length] in *; lia.
    - unfold k. destruct dir as [|d dir']; [now left | right].
      unfold not_slash. now rewrite Gsep. }
  rewrite R2.
  assert (G0 : get (set path k NUL) 0 = SLASH).
  { rewrite get_set. is_false (k =? 0). exact H0. }
  rewrite G0, Ascii.eqb_refl. cbn [assert bind].
  eexists. split; [reflexivity|].
  rewrite str_set_NUL by lia. rewrite Hp. unfold k.
  destruct dir as [|d dir']; [reflexivity|].
  change (d :: dir') with ([] ++ d :: dir') at 2.
  set (dd := d :: dir'). rewrite firstn_app_length. reflexivity.
Qed.

(** X4. What is popped: from a path made of a directory [dir], a [/],
    a last component and any number of [/] behind it, the directory is
    left; when the directory is empty, that is when the component hangs
    from the root, "/" is left. *)
Theorem pop_component_last (path : buf) (dir comp trailing : list ascii) :
  str path = dir ++ SLASH :: comp ++ trailing ->
  get path 0 = SLASH ->
  comp <> [] ->
  Forall (fun c => not_slash c = true) comp ->
  Forall (fun c => is_slash c = true) trailing ->
  exists path',
    pop_component path = Ret path' /\
    str path' = match dir with [] => [SLASH] | _ => dir end.
Proof. apply pop_component_split. Qed.

(** X5. [pop_component] fails an assertion exactly when the path is not
    absolute (the empty path included). *)
Theorem pop_component_aborts (path : buf) :
  pop_component path = Abort <-> get path 0 <> SLASH.
Proof.
  unfold pop_component.
  destruct (strlen path) as [|n] eqn:Hn.
  - cbn. split; [intros _|reflexivity].
    rewrite <- Hn at 1. rewrite get_strlen. discriminate.
  - is_true (0 <=? Z.of_nat (S n) - 1)%Z. cbn [assert bind].
    replace (Z.to_nat (Z.of_nat (S n) - 1)) with n by lia.
    destruct (n =? 0) eqn:E.
    + apply Nat.eqb_eq in E. subst n.
      replace (get path 1) with NUL by (rewrite <- Hn; symmetry; apply get_strlen).
      rewrite Ascii.eqb_refl, andb_true_r.
      destruct (Ascii.eqb (get path 0) SLASH) eqn:F; cbn [assert bind].
      * apply Ascii.eqb_eq in F. split; [discriminate | congruence].
      * apply Ascii.eqb_neq in F. split; [now intros _ | reflexivity].
    + apply Nat.eqb_neq in E.
      set (k := retreat not_slash path (retreat is_slash path n)).
      assert (Hk : 1 <= k).
      { unfold k. apply retreat_bounds. apply retreat_bounds. lia. }
      rewrite get_set. is_false (k =? 0).
      destruct (Ascii.eqb (get path 0) SLASH) eqn:F; cbn [assert bind].
      * apply Ascii.eqb_eq in F. split; [discriminate | congruence].
      * apply Ascii.eqb_neq in F. split; [now intros _ | reflexivity].
Qed.

(** X6. Every absolute path but "/" gets shorter. *)
Theorem pop_component_shortens (path path' : buf) :
  pop_component path = Ret path' ->
  1 < strlen path ->
  strlen path' < strlen path.
Proof.
  unfold pop_component. intros H Hlen. revert H.
  is_true (0 <=? Z.of_nat (strlen path) - 1)%Z. cbn [assert bind].
  replace (Z.to_nat (Z.of_nat (strlen path) - 1)) with (strlen path - 1) by lia.
  is_false (strlen path - 1 =? 0).
  set (o1 := retreat is_slash path (strlen path - 1)).
  set (k := retreat not_slash path o1).
  assert (B1 : 1 <= o1 <= strlen path - 1) by (apply retreat_bounds; lia).
  assert (B2 : 1 <= k <= o1) by (apply retreat_bounds; lia).
  destruct (Ascii.eqb (get (set path k NUL) 0) SLASH); cbn [assert bind];
    [|discriminate].
  intros [= <-].
  rewrite <- length_str, str_set_NUL, length_firstn, length_str by lia. lia.
Qed.

(** ** The joiner *)

Lemma fragments_app (paths1 paths2 : list (option buf)) :
  fragments (paths1 ++ paths2) = fragments paths1 ++ fragments paths2.
Proof. unfold fragments. apply flat_map_app. Qed.

Lemma fits_false (PATH_MAX : nat) (frags : list (list ascii)) (joined : list ascii) :
  fits PATH_MAX frags joined = false <->
  frags <> [] /\ PATH_MAX <= length (fold_left junction frags joined).
Proof.
  rewrite <- not_true_iff_false, fits_fold. split.
  - intro H. split.
    + intro E. apply H. now left.
    + destruct (le_lt_dec PATH_MAX (length (fold_left junction frags joined)));
        [assumption|]. exfalso. apply H. now right.
  - intros [H1 H2] [E|E]; [contradiction | lia].
Qed.

(** X7. [join_paths] answers 0 or -ENAMETOOLONG, and -ENAMETOOLONG
    exactly when there is a fragment and the joined string would have
    [PATH_MAX] bytes or more. *)
Theorem join_paths_status (PATH_MAX : nat) (result : buf)
        (paths : list (option buf)) :
  (fst (join_paths PATH_MAX result paths) = 0%Z \/
   fst (join_paths PATH_MAX result paths) = (- ENAMETOOLONG)%Z) /\
  (fst (join_paths PATH_MAX result paths) = (- ENAMETOOLONG)%Z <->
   fragments paths <> [] /\ PATH_MAX <= length (join_spec paths)).
Proof.
  pose proof (join_paths_spec PATH_MAX result paths) as H.
  unfold join_spec. rewrite <- fits_false.
  destruct (fits PATH_MAX (fragments paths) []).
  - destruct H as (result' & -> & _). cbn [fst]. split; [now left|].
    split; discriminate.
  - rewrite H. split; [now right | tauto].
Qed.

(** X8. Joining in two steps gives what joining at once gives: the
    first fragments joined, then that result joined with the others. *)
Theorem join_paths_incremental (PATH_MAX : nat) (result1 result2 : buf)
        (paths1 paths2 : list (option buf)) :
  length (join_spec (paths1 ++ paths2)) < PATH_MAX ->
  exists joined1 joined whole,
    join_paths PATH_MAX result1 paths1 = (0%Z, joined1) /\
    join_paths PATH_MAX result2 (Some joined1 :: paths2) = (0%Z, joined) /\
    join_paths PATH_MAX result2 (paths1 ++ paths2) = (0%Z, whole) /\
    str joined = str whole.
Proof.
  intro H.
  assert (E : join_spec (paths1 ++ paths2)
              = fold_left junction (fragments paths2) (join_spec paths1)).
  { unfold join_spec. now rewrite fragments_app, fold_left_app. }
  assert (L1 : length (join_spec paths1) < PATH_MAX).
  { pose proof (length_fold_junction_le (fragments paths2) (join_spec paths1)).
    rewrite <- E in *. lia. }
  pose proof (join_paths_spec PATH_MAX result1 paths1) as J1.
  replace (fits PATH_MAX (fragments paths1) []) with true in J1
    by (symmetry; apply fits_fold; right; exact L1).
  destruct J1 as (joined1 & R1 & S1).
  assert (E2 : join_spec (Some joined1 :: paths2) = join_spec (paths1 ++ paths2)).
  { rewrite E. unfold join_spec at 1. cbn [fragments flat_map app fold_left junction].
    now rewrite S1. }
  pose proof (join_paths_spec PATH_MAX result2 (Some joined1 :: paths2)) as J2.
  replace (fits PATH_MAX (fragments (Some joined1 :: paths2)) []) with true in J2
    by (symmetry; apply fits_fold; right; fold (join_spec (Some joined1 :: paths2));
        rewrite E2; exact H).
  destruct J2 as (joined & R2 & S2).
  pose proof (join_paths_spec PATH_MAX result2 (paths1 ++ paths2)) as J.
  replace (fits PATH_MAX (fragments (paths1 ++ paths2)) []) with true in J
    by (symmetry; apply fits_fold; right; exact H).
  destruct J as (whole & R & S0).
  exists joined1, joined, whole.
  repeat split; trivial. now rewrite S2, S0.
Qed.

(** A component under a directory: the joined string. *)
Lemma junction_component (dir name : list ascii) :
  dir <> [] ->
  dir = [SLASH] \/ ends_with_slash dir = false ->
  is_slash (hd NUL name) = false ->
  junction dir name
  = (if ends_with_slash dir then [] else dir) ++ SLASH :: name.
Proof.
  intros Hne Hd Hn. rewrite junction_cases by exact Hne. rewrite Hn.
  destruct Hd as [-> | E]; [reflexivity|]. now rewrite E.
Qed.

(** X9. Pushing a component and popping it: [join_paths] of a directory
    (absolute, without a [/] at its end unless it is "/") with a component,
    then [pop_component], leaves the directory. *)
Theorem pop_component_join_paths (PATH_MAX : nat) (result dir name : buf) :
  get dir 0 = SLASH ->
  str dir = [SLASH] \/ ends_with_slash (str dir) = false ->
  str name <> [] ->
  Forall (fun c => not_slash c = true) (str name) ->
  strlen dir + 1 + strlen name < PATH_MAX ->
  exists joined popped,
    join_paths PATH_MAX result [Some dir; Some name] = (0%Z, joined) /\
    pop_component joined = Ret popped /\
    str popped = str dir.
Proof.
  intros H0 Hd Hne Hcomp Hlen.
  assert (Dne : str dir <> []).
  { rewrite str_unfold, H0. discriminate. }
  assert (Hhd : is_slash (hd NUL (str name)) = false).
  { destruct (str name) as [|c n]; [contradiction|].
    inversion Hcomp as [|? ? Hc _]. unfold not_slash in Hc. cbn [hd].
    unfold is_slash. now apply negb_true_iff. }
  pose proof (junction_component (str dir) (str name) Dne Hd Hhd) as J.
  pose proof (join_paths_spec PATH_MAX result [Some dir; Some name]) as S0.
  change (join_spec [Some dir; Some name])
    with (junction (str dir) (str name)) in S0.
  replace (fits PATH_MAX (fragments [Some dir; Some name]) []) with true in S0.
  2:{ symmetry. apply fits_fold. right.
      change (fold_left junction (fragments [Some dir; Some name]) [])
        with (junction (str dir) (str name)).
      rewrite J, length_app. cbn [length]. rewrite !length_str.
      destruct (ends_with_slash (str dir)); cbn [length]; rewrite ?length_str; lia. }
  destruct S0 as (joined & R & Sj). rewrite J in Sj.
  assert (G0 : get joined 0 = SLASH).
  { rewrite get_0_hd, Sj. destruct (ends_with_slash (str dir)); [reflexivity|].
    rewrite <- H0, get_0_hd. now destruct (str dir). }
  destruct (pop_component_split joined
              (if ends_with_slash (str dir) then [] else str dir) (str name) [])
    as (popped & P & Sp); trivial.
  { now rewrite app_nil_r. }
  exists joined, popped. split; [exact R|]. split; [exact P|].
  rewrite Sp. destruct Hd as [E|E].
  - rewrite E. reflexivity.
  - rewrite E. now destruct (str dir).
Qed.

(** ** The comparator *)

Lemma trim_slash_firstn (s : list ascii) :
  firstn (length (trim_slash s)) s = trim_slash s.
Proof.
  destruct (ends_with_slash s) eqn:E.
  - rewrite (trim_slash_app s E) at 2. apply firstn_app_length.
  - rewrite (trim_slash_false s E). apply firstn_all.
Qed.

Lemma compare_spec_equal (a b : list ascii) :
  compare_spec trim_slash a b = PATHS_ARE_EQUAL <-> trim_slash a = trim_slash b.
Proof.
  unfold compare_spec.
  set (la := length (trim_slash a)). set (lb := length (trim_slash b)).
  split.
  - destruct (_ && _) eqn:C; [|discriminate].
    destruct (la =? lb) eqn:E; [|destruct (la <? lb); discriminate].
    intros _. apply Nat.eqb_eq in E. apply andb_true_iff in C. destruct C as [_ C].
    destruct (list_eq_dec ascii_dec _ _) as [F|F]; [|discriminate].
    rewrite <- E, Nat.min_id in F. unfold la in F at 1.
    rewrite trim_slash_firstn in F. rewrite F, E. unfold lb.
    apply trim_slash_firstn.
  - intro H. assert (E : la = lb) by (unfold la, lb; now rewrite H).
    rewrite <- E, Nat.ltb_irrefl, Nat.eqb_refl, Nat.min_id.
    pose proof (sentinel_after_trim a) as Hs. cbv zeta in Hs. fold la in Hs.
    rewrite Hs. cbn [andb].
    destruct (list_eq_dec ascii_dec _ _) as [F|F]; [reflexivity|].
    exfalso. apply F. unfold la at 1. rewrite trim_slash_firstn, H, E.
    unfold lb. symmetry. apply trim_slash_firstn.
Qed.

Lemma ends_with_slash_cons (c : ascii) (s : list ascii) :
  s <> [] -> ends_with_slash (c :: s) = ends_with_slash s.
Proof. intro H. unfold ends_with_slash. destruct s; [contradiction | reflexivity]. Qed.

Lemma length_trim_slash_app (x rest : list ascii) :
  rest <> [] ->
  length x < length (trim_slash (x ++ SLASH :: rest)).
Proof.
  intro H. rewrite length_trim_slash, length_app. cbn [length].
  assert (0 < length rest) by (destruct rest; [contradiction | cbn; lia]).
  destruct (ends_with_slash _); lia.
Qed.

Lemma compare_spec_prefix_iff (a b : list ascii) :
  ~ In NUL b ->
  compare_spec trim_slash a b = PATH1_IS_PREFIX <->
  exists rest, rest <> [] /\ b = trim_slash a ++ SLASH :: rest.
Proof.
  intro HN. split.
  - intro H. apply compare_spec_prefix in H. cbv zeta in H.
    set (la := length (trim_slash a)) in *.
    destruct H as (L & Hs & F).
    pose proof (length_trim_slash_le b) as Lb.
    assert (Hsl : nth la b NUL = SLASH).
    { destruct Hs as [Hs|Hs]; [exact Hs|]. exfalso. apply HN. rewrite <- Hs.
      apply nth_In. lia. }
    unfold la in F at 1. rewrite trim_slash_firstn in F.
    assert (Hb : b = trim_slash a ++ SLASH :: skipn (S la) b).
    { rewrite <- (firstn_skipn (S la) b) at 1.
      rewrite firstn_S_nth by lia. rewrite <- F, Hsl, <- app_assoc. reflexivity. }
    exists (skipn (S la) b). split; [|exact Hb].
    intro E. rewrite E in Hb.
    assert (Eb : ends_with_slash b = true).
    { rewrite Hb. unfold ends_with_slash. now rewrite last_last. }
    rewrite length_trim_slash, Eb in L. rewrite Hb, length_app in L.
    cbn [length] in L. fold la in L. lia.
  - intros (rest & Hne & ->). unfold compare_spec.
    pose proof (length_trim_slash_app (trim_slash a) rest Hne) as L.
    set (la := length (trim_slash a)) in *.
    set (lb := length (trim_slash (trim_slash a ++ SLASH :: rest))) in *.
    is_true (la <? lb). is_false (la =? lb). rewrite Nat.min_l by lia.
    unfold la at 1. rewrite nth_middle. cbn [orb andb is_slash].
    unfold is_slash. rewrite Ascii.eqb_refl. cbn [orb andb].
    unfold la. rewrite (trim_slash_firstn a), firstn_app_length.
    now destruct (list_eq_dec ascii_dec _ _).
Qed.

Lemma strlen_pos_str (p : buf) : 0 < strlen p <-> str p <> [].
Proof.
  rewrite <- length_str. split.
  - intros H E. rewrite E in H. cbn in H. lia.
  - intro H. destruct (str p); [contradiction | cbn; lia].
Qed.

Lemma compare_paths_equal_iff (a b : buf) :
  compare_paths a b = Ret PATHS_ARE_EQUAL <->
  str a <> [] /\ str b <> [] /\ trim_slash (str a) = trim_slash (str b).
Proof.
  rewrite <- !strlen_pos_str.
  destruct (Nat.eq_dec (strlen a) 0) as [Ea|Na].
  { rewrite compare_paths_empty by auto. split; [discriminate | lia]. }
  destruct (Nat.eq_dec (strlen b) 0) as [Eb|Nb].
  { rewrite compare_paths_empty by auto. split; [discriminate | lia]. }
  rewrite compare_paths_trim by lia. rewrite <- compare_spec_equal.
  split; [intros [= ->]; repeat split; lia | now intros (_ & _ & ->)].
Qed.

(** X10. Two paths compare equal exactly when neither is empty and
    they are the same once a trailing [/] is set aside. *)
Theorem compare_paths_equal (a b : buf) :
  compare_paths a b = Ret PATHS_ARE_EQUAL <->
  str a <> [] /\ str b <> [] /\ trim_slash (str a) = trim_slash (str b).
Proof. apply compare_paths_equal_iff. Qed.

Lemma compare_paths_prefix_iff (a b : buf) :
  compare_paths a b = Ret PATH1_IS_PREFIX <->
  str a <> [] /\
  exists rest, rest <> [] /\ str b = trim_slash (str a) ++ SLASH :: rest.
Proof.
  rewrite <- strlen_pos_str.
  destruct (Nat.eq_dec (strlen a) 0) as [Ea|Na].
  { rewrite compare_paths_empty by auto. split; [discriminate | lia]. }
  destruct (Nat.eq_dec (strlen b) 0) as [Eb|Nb].
  { rewrite compare_paths_empty by auto. split; [discriminate|].
    intros (_ & rest & _ & E). apply (f_equal (@length ascii)) in E.
    rewrite length_str, length_app in E. cbn [length] in E. lia. }
  rewrite compare_paths_trim by lia.
  rewrite <- (compare_spec_prefix_iff _ _ (str_no_NUL b)).
  split; [intros [= ->]; split; [lia | reflexivity] | now intros (_ & ->)].
Qed.

(** X11. The first path is a prefix of the second exactly when it is
    not empty and the second is the first, without its trailing [/],
    then a [/], then something more: "/foo" is a prefix of "/foo/bar" and
    of "/foo//", not of "/foobar" nor of "/foo/". *)
Theorem compare_paths_prefix (a b : buf) :
  compare_paths a b = Ret PATH1_IS_PREFIX <->
  str a <> [] /\
  exists rest, rest <> [] /\ str b = trim_slash (str a) ++ SLASH :: rest.
Proof. apply compare_paths_prefix_iff. Qed.

Lemma trim_slash_app_rest (x rest : list ascii) :
  rest <> [] ->
  exists rest', trim_slash (x ++ SLASH :: rest) = x ++ SLASH :: rest'.
Proof.
  intro H. unfold trim_slash.
  destruct (ends_with_slash (x ++ SLASH :: rest)); [|now exists rest].
  exists (removelast rest).
  rewrite removelast_app by discriminate.
  f_equal. cbn [removelast]. now destruct rest.
Qed.

(** X12. Being a prefix is transitive. *)
Theorem compare_paths_prefix_trans (a b c : buf) :
  compare_paths a b = Ret PATH1_IS_PREFIX ->
  compare_paths b c = Ret PATH1_IS_PREFIX ->
  compare_paths a c = Ret PATH1_IS_PREFIX.
Proof.
  rewrite !compare_paths_prefix_iff.
  intros (Ha & r1 & N1 & E1) (_ & r2 & N2 & E2).
  split; [exact Ha|].
  rewrite E1 in E2. destruct (trim_slash_app_rest (trim_slash (str a)) r1 N1)
    as (r1' & T).
  rewrite T, <- app_assoc in E2. cbn [app] in E2.
  exists (r1' ++ SLASH :: r2). split; [|exact E2].
  intro E. apply app_eq_nil in E. destruct E as [_ E]. discriminate E.
Qed.

(** X13. A comparison fails its assertion exactly when one of the two
    paths is empty. *)
Theorem compare_paths_aborts (a b : buf) :
  compare_paths a b = Abort <-> str a = [] \/ str b = [].
Proof.
  split.
  - intro H. destruct (Nat.eq_dec (strlen a) 0) as [Ea|Na].
    { left. apply length_zero_iff_nil. now rewrite length_str. }
    destruct (Nat.eq_dec (strlen b) 0) as [Eb|Nb].
    { right. apply length_zero_iff_nil. now rewrite length_str. }
    rewrite compare_paths_trim in H by lia. discriminate H.
  - intro H. apply compare_paths_empty.
    destruct H as [H|H]; [left|right]; now rewrite <- length_str, H.
Qed.

(** X14. What [join_paths] makes of a path and a fragment has the path
    as a prefix, as long as the fragment is more than "" or "/". *)
Theorem compare_paths_join_paths (PATH_MAX : nat) (result dir name : buf) :
  str dir <> [] ->
  drop_leading_slash (str name) <> [] ->
  length (junction (str dir) (str name)) < PATH_MAX ->
  exists joined,
    join_paths PATH_MAX result [Some dir; Some name] = (0%Z, joined) /\
    compare_paths dir joined = Ret PATH1_IS_PREFIX.
Proof.
  intros Hd Hn Hlen.
  pose proof (join_paths_spec PATH_MAX result [Some dir; Some name]) as S0.
  change (join_spec [Some dir; Some name])
    with (junction (str dir) (str name)) in S0.
  replace (fits PATH_MAX (fragments [Some dir; Some name]) []) with true in S0
    by (symmetry; apply fits_fold; right; exact Hlen).
  destruct S0 as (joined & R & Sj).
  exists joined. split; [exact R|].
  apply compare_paths_prefix_iff. split; [exact Hd|].
  exists (drop_leading_slash (str name)). split; [exact Hn|].
  rewrite Sj. unfold junction. now destruct (str dir).
Qed.

(** ** The guest rootfs *)

(** X15. A host path belongs to the guest rootfs exactly when it is the
    root, up to a trailing [/], or the root without its trailing [/]
    followed by a [/] and something more. *)
Theorem belongs_to_guestfs_iff (tracee : Tracee) (host_path : buf) :
  belongs_to_guestfs tracee host_path = Ret true <->
  str (root tracee) <> [] /\ str host_path <> [] /\
  (trim_slash (str (root tracee)) = trim_slash (str host_path) \/
   exists rest, rest <> [] /\
     str host_path = trim_slash (str (root tracee)) ++ SLASH :: rest).
Proof.
  unfold belongs_to_guestfs.
  pose proof (compare_paths_equal_iff (root tracee) host_path) as E.
  pose proof (compare_paths_prefix_iff (root tracee) host_path) as P.
  destruct (compare_paths (root tracee) host_path) as [[]|]; cbn [bind Comparison_eqb orb].
  - split; [intros _ | reflexivity].
    destruct (proj1 E eq_refl) as (H1 & H2 & H3). auto.
  - split; [intros _ | reflexivity].
    destruct (proj1 P eq_refl) as (H1 & rest & H2 & H3).
    split; [exact H1|]. split; [|right; now exists rest].
    rewrite H3. now destruct (trim_slash (str (root tracee))).
  - split; [discriminate|]. intros (H1 & H2 & [H3|H3]).
    + assert (A : Ret PATH2_IS_PREFIX = Ret PATHS_ARE_EQUAL) by (apply E; auto).
      discriminate A.
    + assert (A : Ret PATH2_IS_PREFIX = Ret PATH1_IS_PREFIX) by (apply P; auto).
      discriminate A.
  - split; [discriminate|]. intros (H1 & H2 & [H3|H3]).
    + assert (A : Ret PATHS_ARE_NOT_COMPARABLE = Ret PATHS_ARE_EQUAL)
        by (apply E; auto).
      discriminate A.
    + assert (A : Ret PATHS_ARE_NOT_COMPARABLE = Ret PATH1_IS_PREFIX)
        by (apply P; auto).
      discriminate A.
  - split; [discriminate|]. intros (H1 & H2 & [H3|H3]).
    + assert (A : @Abort Comparison = Ret PATHS_ARE_EQUAL) by (apply E; auto).
      discriminate A.
    + assert (A : @Abort Comparison = Ret PATH1_IS_PREFIX) by (apply P; auto).
      discriminate A.
Qed.

(** X16. When the guest rootfs is "/", the paths that belong to it are
    the absolute ones. *)
Theorem belongs_to_guestfs_slash (pid : Z) (host_path : buf) :
  str host_path <> [] ->
  belongs_to_guestfs (mk_Tracee pid (lit "/")) host_path
  = Ret (is_slash (get host_path 0)).
Proof.
  intro Hne. unfold belongs_to_guestfs. cbn [root].
  assert (Hp : 0 < strlen host_path) by now apply strlen_pos_str.
  rewrite compare_paths_trim by (cbn; lia). cbn [bind].
  rewrite get_0_hd. change (str (lit "/")) with [SLASH].
  unfold compare_spec. change (length (trim_slash [SLASH])) with 0.
  cbn [Nat.min firstn].
  destruct (list_eq_dec ascii_dec [] []) as [_|N]; [|contradiction].
  rewrite andb_true_r.
  destruct (length (trim_slash (str host_path))) as [|n] eqn:L.
  - cbn [Nat.ltb Nat.leb Nat.eqb nth is_slash orb Comparison_eqb].
    rewrite length_trim_slash in L.
    destruct (ends_with_slash (str host_path)) eqn:E.
    + destruct (str host_path) as [|c [|c' s]]; try (cbn in L; lia).
      * contradiction.
      * unfold ends_with_slash in E. cbn in E. cbn [hd]. now rewrite E.
    + rewrite length_str in L. lia.
  - cbn [Nat.ltb Nat.leb Nat.eqb].
    replace (nth 0 (str host_path) NUL) with (hd NUL (str host_path))
      by (now destruct (str host_path)).
    destruct (str host_path) as [|c s] eqn:Hs; [contradiction|]. cbn [hd].
    assert (Nc : Ascii.eqb c NUL = false).
    { apply eqb_NUL_false. intros ->. apply (str_no_NUL host_path).
      rewrite Hs. now left. }
    rewrite Nc, orb_false_r. now destruct (is_slash c).
Qed.

(** ** The detranslator *)

Section DetranslatorFurther.

Variable get_path_binding : Tracee -> Side -> buf -> option buf.
Variable substitute_binding : Tracee -> Side -> buf -> Z * buf.
Variable readlink_proc2 : Tracee -> buf -> buf -> nat * buf.

Local Abbreviation detranslate :=
  (detranslate_path get_path_binding substitute_binding readlink_proc2).

(** The top-level call on an absolute path that no binding holds, by the
    comparison with the root. *)
Lemma detranslate_path_top (tracee : Tracee) (path : buf) (status : Z) :
  get path 0 = SLASH ->
  substitute_binding tracee HOST path = (status, path) ->
  status <> 0%Z -> status <> 1%Z ->
  detranslate tracee path None =
  match compare_paths (root tracee) path with
  | Ret PATH1_IS_PREFIX =>
      let k := if strlen (root tracee) =? 1 then 0 else strlen (root tracee) in
      Ret ((Z.of_nat (strlen path - k) + 1)%Z,
           set (memmove path (at_off path k) (strlen path - k))
               (strlen path - k) NUL)
  | Ret PATHS_ARE_EQUAL => Ret (2%Z, strcpy path (lit "/"))
  | Ret _ => Ret ((- EPERM)%Z, path)
  | Abort => Abort
  end.
Proof.
  intros H0 Hsub N0 N1.
  unfold detranslate_path. rewrite H0, Ascii.eqb_refl. cbn [negb bind].
  rewrite Hsub. is_false (status =? 0)%Z. is_false (status =? 1)%Z.
  now destruct (compare_paths (root tracee) path) as [[]|].
Qed.

Lemma absolute_length (b : buf) :
  get b 0 = SLASH -> ends_with_slash (str b) = false -> strlen b <> 1.
Proof.
  intros H0 E L. rewrite <- length_str in L. rewrite get_0_hd in H0.
  destruct (str b) as [|c [|c' s]]; try discriminate L.
  cbn [hd] in H0. subst c. discriminate E.
Qed.

Lemma trim_slash_snoc (x : list ascii) : trim_slash (x ++ [SLASH]) = x.
Proof.
  unfold trim_slash. rewrite ends_with_slash_app by discriminate.
  change (ends_with_slash [SLASH]) with true. apply removelast_last.
Qed.

(** The offset at which the detranslator cuts is inside the path, and
    what follows it starts with a [/] unless the root ends with one. *)
Lemma strip_offset (tracee : Tracee) (path : buf) :
  get path 0 = SLASH ->
  compare_paths (root tracee) path = Ret PATH1_IS_PREFIX ->
  let k := if strlen (root tracee) =? 1 then 0 else strlen (root tracee) in
  k <= strlen path /\
  (str (root tracee) = [SLASH] \/ ends_with_slash (str (root tracee)) = false ->
   hd NUL (skipn k (str path)) = SLASH).
Proof.
  intros H0 C k. apply compare_paths_prefix_iff in C.
  destruct C as (Hr & rest & Hne & E).
  assert (Lt : length (trim_slash (str (root tracee))) + 1 <= strlen path).
  { rewrite <- (length_str path), E, length_app. cbn [length]. lia. }
  assert (Lr : strlen (root tracee)
               <= length (trim_slash (str (root tracee))) + 1).
  { rewrite length_trim_slash, length_str.
    destruct (ends_with_slash (str (root tracee))); lia. }
  split; [unfold k; destruct (strlen (root tracee) =? 1); lia|].
  intro Hc. unfold k. destruct (strlen (root tracee) =? 1) eqn:E1.
  - cbn [skipn]. now rewrite <- get_0_hd.
  - destruct Hc as [Hc|Hc].
    + rewrite <- length_str, Hc in E1. discriminate E1.
    + rewrite (trim_slash_false _ Hc) in E. rewrite E, <- length_str.
      now rewrite skipn_app_length.
Qed.

(** X17. With a root that does not end with [/], or is "/", the path
    that a top-level call rewrites is still absolute. *)
Theorem detranslate_path_absolute (tracee : Tracee) (path path' : buf)
        (status returned : Z) :
  get path 0 = SLASH ->
  str (root tracee) = [SLASH] \/ ends_with_slash (str (root tracee)) = false ->
  substitute_binding tracee HOST path = (status, path) ->
  status <> 0%Z -> status <> 1%Z ->
  detranslate tracee path None = Ret (returned, path') ->
  get path' 0 = SLASH.
Proof.
  intros H0 Hc Hsub N0 N1.
  rewrite (detranslate_path_top tracee path status H0 Hsub N0 N1).
  destruct (compare_paths (root tracee) path) as [[]|] eqn:C;
    try discriminate; cbv zeta; intros [= _ <-]; trivial.
  - now rewrite get_0_hd, str_strcpy.
  - destruct (strip_offset tracee path H0 C) as [Hk Hhd]. cbv zeta in Hk, Hhd.
    rewrite get_0_hd. pose proof (str_memmove_set path _ Hk) as M.
    cbv zeta in M. rewrite M. now apply Hhd.
Qed.

(** X18. The value a call returns is 0, -EPERM, or the size of the
    rewritten path with its NUL -- as long as the emulation of "/proc",
    when it rewrites, answers the length of what it wrote. *)
Theorem detranslate_path_size (tracee : Tracee) (path : buf)
        (t_referrer : option buf) (returned : Z) (path' : buf) :
  (forall (result referrer : buf),
     fst (readlink_proc2 tracee result referrer) = 0 \/
     fst (readlink_proc2 tracee result referrer)
     = strlen (snd (readlink_proc2 tracee result referrer))) ->
  detranslate tracee path t_referrer = Ret (returned, path') ->
  returned = 0%Z \/ returned = (- EPERM)%Z \/
  returned = (Z.of_nat (strlen path') + 1)%Z.
Proof.
  intro Hproc. unfold detranslate_path.
  destruct (negb (Ascii.eqb (get path 0) SLASH)).
  { intros [= <- _]. now left. }
  match goal with
  | |- bind ?d ?k = _ -> _ => set (policy := d); set (rest := k)
  end.
  assert (Hrest : forall sanity_check follow_binding,
             rest (inr (sanity_check, follow_binding)) = Ret (returned, path') ->
             returned = 0%Z \/ returned = (- EPERM)%Z \/
             returned = (Z.of_nat (strlen path') + 1)%Z).
  { intros sanity_check follow_binding. unfold rest.
    assert (Tail : forall p : buf,
               (comparison <- compare_paths (root tracee) p ;;
                match comparison with
                | PATH1_IS_PREFIX =>
                    let prefix_length := strlen (root tracee) in
                    let prefix_length :=
                      if prefix_length =? 1 then 0 else prefix_length in
                    let new_length := strlen p - prefix_length in
                    let p' := memmove p (at_off p prefix_length) new_length in
                    let p' := set p' new_length NUL in
                    Ret ((Z.of_nat new_length + 1)%Z, p')
                | PATHS_ARE_EQUAL =>
                    let new_length := 1 in
                    let p' := strcpy p (lit "/") in
                    Ret ((Z.of_nat new_length + 1)%Z, p')
                | _ => if sanity_check then Ret ((- EPERM)%Z, p) else Ret (0%Z, p)
                end) = Ret (returned, path') ->
               returned = 0%Z \/ returned = (- EPERM)%Z \/
               returned = (Z.of_nat (strlen path') + 1)%Z).
    { intro p. destruct (compare_paths (root tracee) p) as [[]|] eqn:C;
        cbn [bind]; cbv zeta; try discriminate.
      - intros [= <- <-]. right. right.
        now rewrite <- length_str, str_strcpy.
      - intros [= <- <-]. right. right.
        apply compare_paths_prefix_iff in C.
        destruct C as (Hr & rest' & Hne & E).
        set (k := if strlen (root tracee) =? 1 then 0 else strlen (root tracee)).
        assert (Hk : k <= strlen p).
        { assert (strlen (root tracee)
                  <= length (trim_slash (str (root tracee))) + 1).
          { rewrite length_trim_slash, length_str.
            destruct (ends_with_slash (str (root tracee))); lia. }
          rewrite <- (length_str p), E, length_app. cbn [length].
          unfold k. destruct (strlen (root tracee) =? 1); lia. }
        pose proof (str_memmove_set p k Hk) as M. cbv zeta in M.
        rewrite <- (length_str (set _ _ _)), M, length_skipn, length_str.
        reflexivity.
      - destruct sanity_check; intros [= <- _]; auto.
      - destruct sanity_check; intros [= <- _]; auto. }
    destruct follow_binding; [|apply Tail].
    destruct (substitute_binding tracee HOST path) as [st p'].
    destruct (st =? 0)%Z; [intros [= <- _]; now left|].
    destruct (st =? 1)%Z; [intros [= <- <-]; now (right; right)|].
    apply Tail. }
  assert (Hpolicy : forall d, policy = Ret d ->
             match d with
             | inl r => fst r = (Z.of_nat (strlen (snd r)) + 1)%Z
             | inr _ => True
             end).
  { intro d. unfold policy. destruct t_referrer as [referrer|];
      [|now intros [= <-]].
    destruct (compare_paths (lit "/proc") referrer) as [c|]; cbn [bind];
      [|discriminate].
    destruct (Comparison_eqb c PATH1_IS_PREFIX).
    - specialize (Hproc (strcpy [] path) referrer).
      destruct (readlink_proc2 tracee (strcpy [] path) referrer) as [n pp].
      cbn [fst snd] in Hproc.
      destruct (n =? 0) eqn:En; cbn [negb]; intros [= <-]; [exact I|].
      cbn [fst snd]. apply Nat.eqb_neq in En.
      rewrite <- (length_str (strcpy path pp)), str_strcpy, length_str. lia.
    - destruct (belongs_to_guestfs tracee referrer) as [b|]; cbn [bind];
        [|discriminate].
      destruct (negb b); [|now intros [= <-]].
      destruct (get_path_binding tracee HOST referrer) as [b2|]; cbn [assert bind];
        [|discriminate].
      destruct (get_path_binding tracee HOST path) as [b1|]; [|now intros [= <-]].
      destruct (compare_paths b1 b2); cbn [bind]; [|discriminate].
      now intros [= <-]. }
  destruct policy as [d|]; cbn [bind]; [|discriminate].
  specialize (Hpolicy d eq_refl).
  destruct d as [[r p]|[sanity_check follow_binding]].
  - unfold rest. intros [= <- <-]. right. right. exact Hpolicy.
  - apply Hrest.
Qed.

(** X19. Prefixing a guest path with the root and detranslating it
    gives the guest path back: for a root that is absolute and does not
    end with [/] unless it is "/", an absolute guest path and no binding,
    [detranslate_path] undoes [join_paths] of the root and the path. *)
Theorem detranslate_path_join_paths (PATH_MAX : nat) (tracee : Tracee)
        (result guest : buf) :
  get (root tracee) 0 = SLASH ->
  str (root tracee) = [SLASH] \/ ends_with_slash (str (root tracee)) = false ->
  get guest 0 = SLASH ->
  strlen (root tracee) + strlen guest < PATH_MAX ->
  (forall path : buf, exists status,
     substitute_binding tracee HOST path = (status, path) /\
     status <> 0%Z /\ status <> 1%Z) ->
  exists host path',
    join_paths PATH_MAX result [Some (root tracee); Some guest] = (0%Z, host) /\
    detranslate tracee host None
    = Ret ((Z.of_nat (strlen guest) + 1)%Z, path') /\
    str path' = str guest.
Proof.
  intros Hr0 Hc Hg0 Hlen Hsub.
  set (r := str (root tracee)). set (g := str guest).
  assert (Rne : r <> []) by (unfold r; rewrite str_unfold, Hr0; discriminate).
  assert (Gsl : g = SLASH :: tl g).
  { unfold g. rewrite (str_unfold guest), Hg0. reflexivity. }
  assert (Ghd : is_slash (hd NUL g) = true) by (rewrite Gsl; reflexivity).
  (* the joined string *)
  assert (J : junction r g = trim_slash r ++ g).
  { rewrite junction_cases by exact Rne. rewrite Ghd.
    destruct (ends_with_slash r) eqn:E.
    - rewrite (trim_slash_app r E) at 1. rewrite <- app_assoc.
      cbn [app]. now rewrite <- Gsl.
    - now rewrite (trim_slash_false r E). }
  pose proof (join_paths_spec PATH_MAX result [Some (root tracee); Some guest])
    as S0.
  change (join_spec [Some (root tracee); Some guest]) with (junction r g) in S0.
  replace (fits PATH_MAX (fragments [Some (root tracee); Some guest]) [])
    with true in S0.
  2:{ symmetry. apply fits_fold. right.
      change (fold_left junction (fragments [Some (root tracee); Some guest]) [])
        with (junction r g).
      rewrite J, length_app. pose proof (length_trim_slash_le r).
      unfold r, g in *. rewrite !length_str in *. lia. }
  destruct S0 as (host & R & Sh). rewrite J in Sh.
  exists host.
  assert (H0 : get host 0 = SLASH).
  { rewrite get_0_hd, Sh. destruct (trim_slash r) as [|c t] eqn:T.
    - cbn [app]. now rewrite Gsl.
    - cbn [app hd]. rewrite <- Hr0, get_0_hd. fold r.
      destruct (ends_with_slash r) eqn:E.
      + rewrite (trim_slash_app r E), T. reflexivity.
      + rewrite <- (trim_slash_false r E), T. reflexivity. }
  destruct (Hsub host) as (status & Hs & N0 & N1).
  rewrite (detranslate_path_top tracee host status H0 Hs N0 N1).
  destruct (tl g) as [|c t] eqn:Tg; try rewrite Tg in Gsl.
  - (* the guest path is "/": the host path is the root *)
    assert (C : compare_paths (root tracee) host = Ret PATHS_ARE_EQUAL).
    { apply compare_paths_equal_iff. fold r. rewrite Sh, Gsl.
      split; [exact Rne|]. split; [now destruct (trim_slash r)|].
      now rewrite trim_slash_snoc. }
    rewrite C. eexists. split; [exact R|]. split.
    + rewrite <- (length_str guest). fold g. rewrite Gsl. reflexivity.
    + rewrite str_strcpy. fold g. now rewrite Gsl.
  - assert (C : compare_paths (root tracee) host = Ret PATH1_IS_PREFIX).
    { apply compare_paths_prefix_iff. fold r. split; [exact Rne|].
      exists (c :: t). split; [discriminate|]. rewrite Sh, Gsl. reflexivity. }
    rewrite C. cbv zeta.
    destruct (strip_offset tracee host H0 C) as [Hk _]. cbv zeta in Hk.
    set (k := if strlen (root tracee) =? 1 then 0 else strlen (root tracee)) in *.
    pose proof (str_memmove_set host k Hk) as M. cbv zeta in M.
    assert (Sk : skipn k (str host) = g).
    { rewrite Sh. unfold k. destruct Hc as [Hc|Hc].
      - rewrite <- (length_str (root tracee)). unfold r. rewrite Hc. reflexivity.
      - fold r in Hc. rewrite (trim_slash_false r Hc).
        destruct (strlen (root tracee) =? 1) eqn:E1.
        + apply Nat.eqb_eq in E1. exfalso.
          now apply (absolute_length (root tracee)).
        + rewrite <- length_str. fold r. apply skipn_app_length. }
    eexists. split; [exact R|]. split.
    + f_equal. f_equal. f_equal. f_equal.
      rewrite <- (length_str guest). fold g. rewrite <- Sk.
      now rewrite length_skipn, length_str.
    + rewrite M. exact Sk.
Qed.

End DetranslatorFurther.

(** ** The translator *)

(** What a buffer holds once readlink(2) has filled it and the NUL has
    been written. *)
Lemma str_store_set (result : buf) (target : list ascii) :
  str (set (store result 0 target) (length target) NUL) = str target.
Proof.
  apply str_ext. intros i Hi. pose proof (strlen_le_length target).
  rewrite get_set. destruct (Nat.eq_dec (length target) i) as [<-|N].
  - rewrite Nat.eqb_refl. unfold get. symmetry. apply nth_overflow. lia.
  - is_false (length target =? i). rewrite get_store_in by lia.
    now rewrite Nat.sub_0_r.
Qed.

Lemma get_store_set_0 (result : buf) (target : list ascii) :
  get (set (store result 0 target) (length target) NUL) 0 = get target 0.
Proof.
  rewrite get_set. destruct target as [|c t]; [reflexivity|].
  cbn [length Nat.eqb]. now rewrite get_store_in by (cbn [length]; lia).
Qed.

Section TranslatorFurther.

Variable PATH_MAX : nat.
Variable get_path_binding : Tracee -> Side -> buf -> option buf.
Variable substitute_binding : Tracee -> Side -> buf -> Z * buf.
Variable readlink_proc2 : Tracee -> buf -> buf -> nat * buf.
Variable getpid : Z.
Variable sys_readlink : list ascii -> option (list ascii).
Variable notify_extensions : Tracee -> buf -> buf -> Z * buf.
Variable canonicalize : Tracee -> buf -> bool -> buf -> nat -> Z * buf.

Local Abbreviation translate sys_stat :=
  (translate_path PATH_MAX get_path_binding substitute_binding readlink_proc2
                  getpid sys_readlink sys_stat notify_extensions canonicalize).



(** X22. The errors of the anchor of a relative path, when the name of
    the link fits its buffer: -EPERM and an untouched buffer when the link
    cannot be read, -ENAMETOOLONG when its content fills the buffer, and
    -ENOTDIR when stat(2) tells that the descriptor is not open on a
    directory. *)
Theorem translate_path_anchor (sys_stat : list ascii -> option Z)
        (statl : Z) (tracee : Tracee) (result : buf) (dir_fd : Z)
        (fake_path : buf) (deref_final : bool) :
  get fake_path 0 <> SLASH ->
  let pid := if (pid tracee =? 0)%Z then getpid else pid tracee in
  let link :=
    if (dir_fd =? AT_FDCWD)%Z
    then lit "/proc/" ++ decimal pid ++ lit "/cwd"
    else lit "/proc/" ++ decimal pid ++ lit "/fd/" ++ decimal dir_fd in
  length link < 32 ->
  (sys_readlink link = None ->
   translate sys_stat statl tracee result dir_fd fake_path deref_final
   = Ret ((- EPERM)%Z, result)) /\
  (forall target,
     sys_readlink link = Some target -> PATH_MAX <= length target ->
     exists result',
       translate sys_stat statl tracee result dir_fd fake_path deref_final
       = Ret ((- ENAMETOOLONG)%Z, result')) /\
  (forall target st_mode,
     sys_readlink link = Some target -> length target < PATH_MAX ->
     dir_fd <> AT_FDCWD ->
     sys_stat (str target) = Some st_mode -> S_ISDIR st_mode = false ->
     exists result',
       translate sys_stat statl tracee result dir_fd fake_path deref_final
       = Ret ((- ENOTDIR)%Z, result') /\
       str result' = str target).
Proof.
  intros F pid0 link Hlink.
  assert (Fb : Ascii.eqb (get fake_path 0) SLASH = false)
    by now apply Ascii.eqb_neq.
  unfold translate_path. rewrite Fb. fold pid0. cbv zeta. fold link.
  is_false (Z.of_nat (length link) <? 0)%Z.
  is_false (32 <=? Z.of_nat (length link))%Z.
  rewrite (firstn_all2 link) by lia.
  unfold readlink.
  split; [|split].
  - intros ->. reflexivity.
  - intros target -> Hlong.
    is_false (Z.of_nat (Nat.min (length target) PATH_MAX) <? 0)%Z.
    is_true (Z.of_nat PATH_MAX <=? Z.of_nat (Nat.min (length target) PATH_MAX))%Z.
    eexists. reflexivity.
  - intros target st_mode -> Hshort Hfd Hstat Hdir.
    is_false (Z.of_nat (Nat.min (length target) PATH_MAX) <? 0)%Z.
    is_false (Z.of_nat PATH_MAX <=? Z.of_nat (Nat.min (length target) PATH_MAX))%Z.
    rewrite Nat2Z.id, Nat.min_l, firstn_all2 by lia.
    is_false (dir_fd =? AT_FDCWD)%Z. cbn [negb].
    rewrite str_store_set, Hstat, Hdir. cbn [negb bind].
    eexists. split; [reflexivity | apply str_store_set].
Qed.

End TranslatorFurther.

(** ** Open file descriptors *)

Section DescriptorsFurther.

Variable PATH_MAX : nat.
Variable HAVE_READLINKAT : bool.
Variable sys_opendir : list ascii -> option (list buf).
Variable sys_readlink : list ascii -> option (list ascii).

Lemma first_negative_notices (pid : Z) (proc_fd : buf) (entries : list buf) :
  forall (path : buf) (log : list notice),
  first_negative list_open_fd_callback pid
    (visited PATH_MAX HAVE_READLINKAT sys_readlink proc_fd entries path) log
  = (0%Z,
     log ++ flat_map (open_notice PATH_MAX HAVE_READLINKAT sys_readlink
                                  pid proc_fd) entries).
Proof.
  induction entries as [|d_name entries IH]; intros path log.
  - cbn. now rewrite app_nil_r.
  - cbn [visited flat_map]. unfold open_notice at 1.
    destruct (negb HAVE_READLINKAT && (PATH_MAX <=? strlen proc_fd + strlen d_name + 1));
      [apply IH|].
    destruct (sys_readlink (str proc_fd ++ lit "/" ++ str d_name)) as [target|];
      [|apply IH].
    destruct (PATH_MAX <=? length target) eqn:Long.
    + apply Nat.leb_le in Long. is_false (length target <? PATH_MAX).
      cbn [andb app]. apply IH.
    + apply Nat.leb_gt in Long. is_true (length target <? PATH_MAX).
      cbn [andb]. rewrite firstn_all2 by lia.
      rewrite get_store_set_0. fold (is_slash (get target 0)).
      destruct (is_slash (get target 0)); [|apply IH].
      cbn [first_negative list_open_fd_callback Z.ltb Z.compare].
      rewrite IH, str_store_set. now rewrite <- app_assoc.
Qed.

(** X23. What [list_open_fd] reports: it keeps the notices already
    issued and adds, in the order of the directory, one notice for each
    descriptor whose link can be read, fits the buffer and holds an
    absolute path, with that path and the number the name of the entry
    spells; nothing when the directory cannot be opened. *)
Theorem list_open_fd_notices (pid : Z) (log : list notice) :
  list_open_fd PATH_MAX HAVE_READLINKAT sys_opendir sys_readlink pid log
  = (0%Z,
     log ++
     let proc_fd := lit "/proc/" ++ decimal pid ++ lit "/fd" in
     if 32 <=? length proc_fd then [] else
     match sys_opendir proc_fd with
     | None => []
     | Some entries =>
         flat_map (open_notice PATH_MAX HAVE_READLINKAT sys_readlink
                               pid proc_fd) entries
     end).
Proof.
  unfold list_open_fd, foreach_fd. cbv zeta.
  set (text := lit "/proc/" ++ decimal pid ++ lit "/fd").
  is_false (Z.of_nat (length text) <? 0)%Z. cbn [orb].
  destruct (32 <=? length text) eqn:Long.
  - apply Nat.leb_le in Long. is_true (32 <=? Z.of_nat (length text))%Z.
    now rewrite app_nil_r.
  - apply Nat.leb_gt in Long. is_false (32 <=? Z.of_nat (length text))%Z.
    rewrite firstn_all2 by lia.
    destruct (sys_opendir text); [|now rewrite app_nil_r].
    rewrite foreach_fd_loop_first_negative. apply first_negative_notices.
Qed.

End DescriptorsFurther.

(** * The further properties on the host of the examples *)

(** X1: the second component of "/usr//bin/". *)
Lemma next_component_cursor_witness :
  6 <= strlen (lit "/usr//bin/") /\
  6 <= lx_cursor (next_component Jail.NAME_MAX [] (lit "/usr//bin/") 6)
    <= strlen (lit "/usr//bin/").
Proof.
  assert (H : 6 <= strlen (lit "/usr//bin/")) by (cbn; lia).
  split; [exact H|].
  exact (proj1 (next_component_cursor Jail.NAME_MAX [] (lit "/usr//bin/") 6 H)).
Defined.

(** X2: after "usr" in "/usr//bin/" the cursor is on the "b". *)
Lemma next_component_next_witness :
  0 <= strlen (lit "/usr//bin/") /\
  lx_result (next_component Jail.NAME_MAX [] (lit "/usr//bin/") 0) = inr NOT_FINAL /\
  get (lit "/usr//bin/")
      (lx_cursor (next_component Jail.NAME_MAX [] (lit "/usr//bin/") 0)) <> SLASH.
Proof.
  assert (H : 0 <= strlen (lit "/usr//bin/")) by lia.
  assert (R : lx_result (next_component Jail.NAME_MAX [] (lit "/usr//bin/") 0)
              = inr NOT_FINAL) by reflexivity.
  split; [exact H|]. split; [exact R|].
  exact (proj1 (proj2 (proj1 (next_component_next Jail.NAME_MAX []
                                (lit "/usr//bin/") 0 H) R))).
Defined.

(** X3: a component of four bytes where names have at most two. *)
Lemma next_component_too_long_witness :
  0 <= strlen (lit "/abcd/e") /\
  lx_result (next_component 3 (lit "old") (lit "/abcd/e") 0)
  = inl (- ENAMETOOLONG)%Z /\
  lx_component (next_component 3 (lit "old") (lit "/abcd/e") 0) = lit "old".
Proof.
  assert (H : 0 <= strlen (lit "/abcd/e")) by lia.
  assert (R : lx_result (next_component 3 (lit "old") (lit "/abcd/e") 0)
              = inl (- ENAMETOOLONG)%Z) by reflexivity.
  split; [exact H|]. split; [exact R|].
  exact (proj1 (proj2 (next_component_too_long 3 (lit "old") (lit "/abcd/e") 0
                         (- ENAMETOOLONG)%Z H R))).
Defined.

(** X4: "/usr/bin//" popped. *)
Lemma pop_component_last_witness :
  exists path',
    pop_component (lit "/usr/bin//") = Ret path' /\ str path' = lit "/usr".
Proof.
  apply (pop_component_last (lit "/usr/bin//") (lit "/usr") (lit "bin") (lit "//")).
  - reflexivity.
  - reflexivity.
  - discriminate.
  - repeat constructor.
  - repeat constructor.
Defined.

(** X6: "/usr/bin" popped is shorter. *)
Lemma pop_component_shortens_witness :
  exists path',
    pop_component (lit "/usr/bin") = Ret path' /\
    1 < strlen (lit "/usr/bin") /\
    strlen path' < strlen (lit "/usr/bin").
Proof.
  eexists. split; [reflexivity|].
  assert (H : 1 < strlen (lit "/usr/bin")) by (cbn; lia).
  split; [exact H|].
  apply (pop_component_shortens (lit "/usr/bin")); [reflexivity | exact H].
Defined.

(** X8: "/usr", "lib" and "locale" joined in two steps. *)
Lemma join_paths_incremental_witness :
  length (join_spec ([Some (lit "/usr"); Some (lit "lib")] ++ [Some (lit "locale")]))
  < Jail.PATH_MAX /\
  exists joined1 joined whole,
    join_paths Jail.PATH_MAX [] [Some (lit "/usr"); Some (lit "lib")]
    = (0%Z, joined1) /\
    join_paths Jail.PATH_MAX [] (Some joined1 :: [Some (lit "locale")])
    = (0%Z, joined) /\
    join_paths Jail.PATH_MAX []
      ([Some (lit "/usr"); Some (lit "lib")] ++ [Some (lit "locale")])
    = (0%Z, whole) /\
    str joined = str whole.
Proof.
  assert (H : length (join_spec ([Some (lit "/usr"); Some (lit "lib")]
                                   ++ [Some (lit "locale")]))
              < Jail.PATH_MAX) by (apply Nat.ltb_lt; reflexivity).
  split; [exact H|].
  exact (join_paths_incremental Jail.PATH_MAX [] []
           [Some (lit "/usr"); Some (lit "lib")] [Some (lit "locale")] H).
Defined.

(** X9: "bin" pushed on "/usr" and popped. *)
Lemma pop_component_join_paths_witness :
  exists joined popped,
    join_paths Jail.PATH_MAX [] [Some (lit "/usr"); Some (lit "bin")]
    = (0%Z, joined) /\
    pop_component joined = Ret popped /\
    str popped = str (lit "/usr").
Proof.
  apply (pop_component_join_paths Jail.PATH_MAX [] (lit "/usr") (lit "bin")).
  - reflexivity.
  - now right.
  - discriminate.
  - repeat constructor.
  - apply Nat.ltb_lt. reflexivity.
Defined.

(** X12: "/a", "/a/b" and "/a/b/c". *)
Lemma compare_paths_prefix_trans_witness :
  compare_paths (lit "/a") (lit "/a/b") = Ret PATH1_IS_PREFIX /\
  compare_paths (lit "/a/b") (lit "/a/b/c") = Ret PATH1_IS_PREFIX /\
  compare_paths (lit "/a") (lit "/a/b/c") = Ret PATH1_IS_PREFIX.
Proof.
  assert (H1 : compare_paths (lit "/a") (lit "/a/b") = Ret PATH1_IS_PREFIX)
    by reflexivity.
  assert (H2 : compare_paths (lit "/a/b") (lit "/a/b/c") = Ret PATH1_IS_PREFIX)
    by reflexivity.
  split; [exact H1|]. split; [exact H2|].
  exact (compare_paths_prefix_trans (lit "/a") (lit "/a/b") (lit "/a/b/c") H1 H2).
Defined.

(** X14: "/jail" and what it is joined with. *)
Lemma compare_paths_join_paths_witness :
  exists joined,
    join_paths Jail.PATH_MAX [] [Some (lit "/jail"); Some (lit "/home/u")]
    = (0%Z, joined) /\
    compare_paths (lit "/jail") joined = Ret PATH1_IS_PREFIX.
Proof.
  apply (compare_paths_join_paths Jail.PATH_MAX [] (lit "/jail") (lit "/home/u")).
  - discriminate.
  - discriminate.
  - apply Nat.ltb_lt. reflexivity.
Defined.

(** X16: "/etc/passwd" under the rootfs "/". *)
Lemma belongs_to_guestfs_slash_witness :
  str (lit "/etc/passwd") <> [] /\
  belongs_to_guestfs (mk_Tracee 1 (lit "/")) (lit "/etc/passwd") = Ret true.
Proof.
  assert (H : str (lit "/etc/passwd") <> []) by discriminate.
  split; [exact H|].
  exact (belongs_to_guestfs_slash 1 (lit "/etc/passwd") H).
Defined.

(** X17: "/jail/home/u" detranslated is absolute. *)
Lemma detranslate_path_absolute_witness :
  exists path',
    detranslate_path Jail.get_path_binding Jail.substitute_binding
      Jail.readlink_proc2 Jail.tracee (lit "/jail/home/u") None
    = Ret (8%Z, path') /\
    get path' 0 = SLASH.
Proof.
  eexists. split; [reflexivity|].
  apply (detranslate_path_absolute Jail.get_path_binding Jail.substitute_binding
           Jail.readlink_proc2 Jail.tracee (lit "/jail/home/u") _
           (- ENOENT)%Z 8%Z).
  - reflexivity.
  - now right.
  - reflexivity.
  - discriminate.
  - discriminate.
  - reflexivity.
Defined.

(** X18: the value returned for "/jail/home/u". *)
Lemma detranslate_path_size_witness :
  exists path',
    detranslate_path Jail.get_path_binding Jail.substitute_binding
      Jail.readlink_proc2 Jail.tracee (lit "/jail/home/u") None
    = Ret (8%Z, path') /\
    (8%Z = 0%Z \/ 8%Z = (- EPERM)%Z \/ 8%Z = (Z.of_nat (strlen path') + 1)%Z).
Proof.
  eexists. split; [reflexivity|].
  apply (detranslate_path_size Jail.get_path_binding Jail.substitute_binding
           Jail.readlink_proc2 Jail.tracee (lit "/jail/home/u") None).
  - intros result referrer. now left.
  - reflexivity.
Defined.

(** X19: "/home/u" under "/jail" and back. *)
Lemma detranslate_path_join_paths_witness :
  exists host path',
    join_paths Jail.PATH_MAX [] [Some (root Jail.tracee); Some (lit "/home/u")]
    = (0%Z, host) /\
    detranslate_path Jail.get_path_binding Jail.substitute_binding
      Jail.readlink_proc2 Jail.tracee host None
    = Ret ((Z.of_nat (strlen (lit "/home/u")) + 1)%Z, path') /\
    str path' = str (lit "/home/u").
Proof.
  apply (detranslate_path_join_paths Jail.get_path_binding Jail.substitute_binding
           Jail.readlink_proc2 Jail.PATH_MAX Jail.tracee [] (lit "/home/u")).
  - reflexivity.
  - now right.
  - reflexivity.
  - apply Nat.ltb_lt. reflexivity.
  - intro path. exists (- ENOENT)%Z. repeat split; discriminate.
Defined.



(** X22: descriptor 3 of the tracee, were it open on a regular file
    (mode 0100644). *)
Lemma translate_path_anchor_witness :
  get (lit "x") 0 <> SLASH /\
  length (lit "/proc/42/fd/3") < 32 /\
  exists result',
    translate_path Jail.PATH_MAX Jail.get_path_binding Jail.substitute_binding
      Jail.readlink_proc2 Jail.getpid Jail.sys_readlink (fun _ => Some 33188%Z)
      Jail.notify_extensions Jail.canonicalize
      0 Jail.tracee [] 3 (lit "x") true
    = Ret ((- ENOTDIR)%Z, result') /\
    str result' = str (lit "/jail/gone (deleted)").
Proof.
  assert (F : get (lit "x") 0 <> SLASH) by discriminate.
  assert (L : length (lit "/proc/42/fd/3") < 32) by (apply Nat.ltb_lt; reflexivity).
  split; [exact F|]. split; [exact L|].
  apply (proj2 (proj2 (translate_path_anchor Jail.PATH_MAX Jail.get_path_binding
                         Jail.substitute_binding Jail.readlink_proc2 Jail.getpid
                         Jail.sys_readlink Jail.notify_extensions Jail.canonicalize
                         (fun _ => Some 33188%Z) 0 Jail.tracee [] 3 (lit "x") true
                         F L))
               (lit "/jail/gone (deleted)") 33188%Z).
  - reflexivity.
  - apply Nat.ltb_lt. reflexivity.
  - discriminate.
  - reflexivity.
  - reflexivity.
Defined.
